(** * Fragment hotspot maps: a shallow embedding of
    [fragment_hotspot_maps/fragment_hotspot_maps.py]

  The development follows the layout of the Python module:

  - [Py]           exceptions, results and the few builtins the module uses;
  - [GridModel]    the scalar-field grid the module imports ([Grid]) together
                   with [_HotspotsHelper];
  - [Ghecom]       [_GhecomResult.update_grid];
  - [Superstar]    [_SuperstarResult];
  - [Results]      [HotspotResults] (single-owner masks, volume selection);
  - [Sampler]      [Hotspots._Sampler];
  - [Inputs]       the concrete grids, molecules and settings of the examples.

  The properties follow the definitions, in the same order.

  Grid values and coordinates are Python floats.  They are idealised as
  rationals ([Q]) in the grid code, where only [+], [-], [*], [/] and
  comparisons occur, and as reals ([R]) in the sampler, which takes square
  roots. *)

From Stdlib Require Import ZArith QArith Qround Qminmax List String Ascii Bool Lia Lqa.
From Stdlib Require Import Reals Lra.
Import ListNotations.

Set Implicit Arguments.

(* ================================================================== *)
(** ** Python results and builtins *)

Module Py.

(** The exceptions that the modelled functions can raise. *)
Inductive exn : Type :=
| AttributeError (msg : string)
| TypeError (msg : string)
| ValueError
| IndexError
| KeyError
| UnboundLocalError
| ZeroDivisionError
| RuntimeError
| IOError.

Inductive result (A : Type) : Type :=
| Ok (a : A)
| Raise (e : exn).

Arguments Ok {A} a.
Arguments Raise {A} e.

Definition bind {A B} (r : result A) (k : A -> result B) : result B :=
  match r with
  | Ok a => k a
  | Raise e => Raise e
  end.

Definition is_ok {A} (r : result A) : bool :=
  match r with Ok _ => true | Raise _ => false end.

(** [for x in xs: st = body(st, x)], stopping at the first exception. *)
Fixpoint for_each {A S} (body : S -> A -> result S) (xs : list A) (st : S)
  : result S :=
  match xs with
  | [] => Ok st
  | x :: xs' => bind (body st x) (for_each body xs')
  end.

(** [xs[n]] for a non-negative index. *)
Definition getitem {A} (xs : list A) (n : nat) : result A :=
  match nth_error xs n with
  | Some a => Ok a
  | None => Raise IndexError
  end.

(** [s[a:b]] for [0 <= a <= b]: slices never raise, they truncate. *)
Definition slice (a b : nat) (s : string) : string :=
  String.substring a (b - a) s.

(** [s.startswith(p)]. *)
Definition startswith (p s : string) : bool := String.prefix p s.

(** Python 2 [round]: to the nearest integer, halves away from zero. *)
Definition round (q : Q) : Z :=
  if Qle_bool 0 q then Qfloor (q + (1 # 2)) else Qceiling (q - (1 # 2)).

Definition Qltb (a b : Q) : bool := negb (Qle_bool b a).

End Py.

Import Py.

Declare Scope py_scope.
Notation "x <- r ;; k" := (Py.bind r (fun x => k))
(at level 61, r at next level, right associativity) : py_scope.
Notation "' p <- r ;; k" := (Py.bind r (fun p => k))
(at level 61, p pattern, r at next level, right associativity) : py_scope.
Open Scope py_scope.

(* ================================================================== *)
(** ** The grid *)

Module GridModel.

Definition idx : Type := (Z * Z * Z)%type.
Definition point : Type := (Q * Q * Q)%type.

(** Modelled from the spec: the [Grid] class is imported by the module.  The
    spec gives a grid as an origin (the lower corner of its bounding box),
    the number of steps on each axis, a uniform spacing and one value per
    cell.  The spacing is 0.5 everywhere in the module ([gs = 0.5] is
    hard-coded in [_HotspotsHelper]). *)
Record Grid : Type := mkGrid {
  origin : point;          (* g.bounding_box[0] *)
  nsteps : idx;            (* g.nsteps *)
  cells  : idx -> Q        (* values, by index *)
}.

Definition gs : Q := 1 # 2.

Definition in_bounds (g : Grid) (c : idx) : bool :=
  let '(i, j, k) := c in
  let '(nx, ny, nz) := nsteps g in
  (0 <=? i)%Z && (i <? nx)%Z && (0 <=? j)%Z && (j <? ny)%Z
  && (0 <=? k)%Z && (k <? nz)%Z.

Definition idx_eqb (a b : idx) : bool :=
  let '(i, j, k) := a in
  let '(i', j', k') := b in
  (i =? i')%Z && (j =? j')%Z && (k =? k')%Z.

(** Modelled from the spec: [g.value(i, j, k)] fails with an out-of-bounds
    condition for an index outside the extent of the grid. *)
Definition value (g : Grid) (i j k : Z) : result Q :=
  if in_bounds g (i, j, k) then Ok (cells g (i, j, k)) else Raise IndexError.

(** Modelled from the spec: [g.set_value(i, j, k, v)], with the same
    out-of-bounds condition. *)
Definition set_value (g : Grid) (i j k : Z) (v : Q) : result Grid :=
  if in_bounds g (i, j, k)
  then Ok (mkGrid (origin g) (nsteps g)
             (fun c => if idx_eqb c (i, j, k) then v else cells g c))
  else Raise IndexError.

(** [_HotspotsHelper._indices_to_point]. *)
Definition _indices_to_point (i j k : Z) (g : Grid) : point :=
  let '(ox, oy, oz) := origin g in
  (ox + inject_Z i * gs, oy + inject_Z j * gs, oz + gs * inject_Z k).

(** [_HotspotsHelper._point_to_indices]: both the point and the origin are
    rounded to the lattice of spacing 0.5 and subtracted. *)
Definition _point_to_indices (p : point) (g : Grid) : idx :=
  let '(px, py, pz) := p in
  let '(bx, b_y, bz) := origin g in
  let rx := Py.round (px / gs) in
  let ry := Py.round (py / gs) in
  let rz := Py.round (pz / gs) in
  let ox := Py.round (bx / gs) in
  let oy := Py.round (b_y / gs) in
  let oz := Py.round (bz / gs) in
  ((rx - ox)%Z, (ry - oy)%Z, (rz - oz)%Z).

(** *** Grid algebra *)

Definition truth (b : bool) : Q := if b then 1 else 0.

(** Modelled from the spec: the arithmetic of the imported [Grid] class
    ([+], [-], [*], comparison-as-mask, [&]) is not part of this module.  The
    spec describes it as cell-by-cell combination of grids of identical shape
    and spacing; a comparison yields a mask holding 1 where it is true and 0
    elsewhere.  The result is laid on the frame of the left operand. *)
Definition pointwise (f : Q -> Q -> Q) (a b : Grid) : Grid :=
  mkGrid (origin a) (nsteps a) (fun c => f (cells a c) (cells b c)).

(** Modelled from the spec: the same arithmetic with a number on the right. *)
Definition scalar (f : Q -> Q) (a : Grid) : Grid :=
  mkGrid (origin a) (nsteps a) (fun c => f (cells a c)).

Definition gadd : Grid -> Grid -> Grid := pointwise Qplus.      (* a + b *)
Definition gsub : Grid -> Grid -> Grid := pointwise Qminus.     (* a - b *)
Definition gmul : Grid -> Grid -> Grid := pointwise Qmult.      (* a * b *)
Definition ggt : Grid -> Grid -> Grid :=                        (* a > b *)
  pointwise (fun x y => truth (Qltb y x)).
Definition gand : Grid -> Grid -> Grid :=                       (* a & b *)
  pointwise (fun x y => truth (negb (Qeq_bool x 0) && negb (Qeq_bool y 0))).
Definition glt_scalar (a : Grid) (s : Q) : Grid :=              (* a < s *)
  scalar (fun x => truth (Qltb x s)) a.
Definition ggt_scalar (a : Grid) (s : Q) : Grid :=              (* a > s *)
  scalar (fun x => truth (Qltb s x)) a.
Definition gmul_scalar (a : Grid) (s : Q) : Grid :=             (* a * s *)
  scalar (fun x => x * s) a.

(** [range(n)]. *)
Definition range (n : Z) : list Z := map Z.of_nat (seq 0 (Z.to_nat n)).

(** The indices visited by [for i in range(nx) for j in range(ny) for k in
    range(nz)], in that order. *)
Definition all_cells (g : Grid) : list idx :=
  let '(nx, ny, nz) := nsteps g in
  flat_map (fun i => flat_map (fun j => map (fun k => (i, j, k)) (range nz))
                       (range ny))
    (range nx).

Definition Qsum (l : list Q) : Q := fold_right Qplus 0 l.

Definition Qmaximum (l : list Q) : Q :=
  match l with
  | [] => 0
  | x :: t => fold_left Qmax t x
  end.

(** *** Neighbourhood reductions *)

Definition window (c : idx) : list idx :=
  let '(i, j, k) := c in
  flat_map (fun di => flat_map (fun dj => map (fun dk =>
    ((i + di)%Z, (j + dj)%Z, (k + dk)%Z)) [-1; 0; 1]%Z) [-1; 0; 1]%Z)
    [-1; 0; 1]%Z.

Definition neighbourhood (g : Grid) (c : idx) : list idx :=
  filter (in_bounds g) (window c).

Definition neighbours (g : Grid) (c : idx) : list idx :=
  filter (fun d => negb (idx_eqb d c)) (neighbourhood g c).

(** Modelled from the spec: [max_value_of_neighbours] belongs to the imported
    [Grid] class.  The spec gives it as a local 3x3x3 reduction, the maximum
    over the neighbours of the cell, the cell itself excluded.  Cells of the
    window that fall outside the grid are left out. *)
Definition max_value_of_neighbours (g : Grid) : Grid :=
  mkGrid (origin g) (nsteps g)
    (fun c => Qmaximum (map (cells g) (neighbours g c))).

Definition Qmean (l : list Q) : Q :=
  Qsum l / inject_Z (Z.of_nat (List.length l)).

(** Modelled from the spec: [mean_value_of_neighbours] belongs to the
    imported [Grid] class.  The spec gives it as a local 3x3x3 reduction, the
    mean over the window of the cell, the cell itself included.  Cells of the
    window that fall outside the grid are left out. *)
Definition mean_value_of_neighbours (g : Grid) : Grid :=
  mkGrid (origin g) (nsteps g)
    (fun c => Qmean (map (cells g) (neighbourhood g c))).

(** *** Super grids *)

Definition map3 {A B} (f : A -> B) (p : A * A * A) : B * B * B :=
  let '(x, y, z) := p in (f x, f y, f z).

Definition zip3 {A B C} (f : A -> B -> C) (p : A * A * A) (q : B * B * B)
  : C * C * C :=
  let '(x, y, z) := p in
  let '(x', y', z') := q in (f x x', f y y', f z z').

(** [g.bounding_box[1]]. *)
Definition far_corner (g : Grid) : point :=
  zip3 (fun o n => o + inject_Z (n - 1) * gs) (origin g) (nsteps g).

(** The index in [g] of the cell that lies at index [c] of a grid whose
    origin is [o]. *)
Definition reindex (o : point) (g : Grid) (c : idx) : idx :=
  zip3 Z.sub c (zip3 (fun a b => Py.round ((a - b) / gs)) (origin g) o).

(** The value that [g] contributes at index [c] of a grid of origin [o]. *)
Definition value_or_zero (o : point) (g : Grid) (c : idx) : Q :=
  let d := reindex o g c in
  if in_bounds g d then cells g d else 0.

(** Modelled from the spec: [Grid.super_grid(padding, *grids)] belongs to the
    imported [Grid] class.  The spec gives it as the union of the bounding
    boxes of the grids, enlarged by a border of [padding] zero-valued cells on
    every side; each cell of the result holds what the grids hold at that
    place (their sum where several cover it, zero where none does). *)
Definition super_grid (padding : Z) (g : Grid) (others : list Grid) : Grid :=
  let lo := fold_left (zip3 Qmin) (map origin others) (origin g) in
  let hi := fold_left (zip3 Qmax) (map far_corner others) (far_corner g) in
  let o := map3 (fun x => x - inject_Z padding * gs) lo in
  let t := map3 (fun x => x + inject_Z padding * gs) hi in
  let n := zip3 (fun a b => (Qfloor ((b - a) / gs) + 1)%Z) o t in
  mkGrid o n (fun c => Qsum (map (fun h => value_or_zero o h c) (g :: others))).

(** [_HotspotsHelper._copy_and_clear]. *)
Definition _copy_and_clear (grid : Grid) : Grid := gmul_scalar grid 0.

(** [_HotspotsHelper._common_grid], whose [padding] defaults to 1. *)
Definition _common_grid (g1 g2 : Grid) (padding : Z) : Grid * Grid :=
  let sg := super_grid padding g1 [g2] in
  let out_g := _copy_and_clear sg in
  let out1 := super_grid padding g1 [out_g] in
  let out2 := super_grid padding g2 [out_g] in
  (out1, out2).

Definition default_padding : Z := 1.

(** Modelled from the spec: [g.value_at_point(p)], which the spec lists next
    to the accessor by index, is the value at the index nearest to the
    point. *)
Definition value_at_point (g : Grid) (p : point) : result Q :=
  let '(i, j, k) := _point_to_indices p g in value g i j k.

(** Equality of points, coordinate by coordinate. *)
Definition point_eq (a b : point) : Prop :=
  let '(ax, ay, az) := a in
  let '(bx, b_y, bz) := b in
  ax == bx /\ ay == b_y /\ az == bz.

(** The squared distance between two points. *)
Definition sq_distance (a b : point) : Q :=
  let '(ax, ay, az) := a in
  let '(bx, b_y, bz) := b in
  (ax - bx) * (ax - bx) + (ay - b_y) * (ay - b_y) + (az - bz) * (az - bz).

(** [c] is an index nearest to the point [p] on the lattice of [g]: no
    index, inside the grid or outside, has its point nearer to [p]. *)
Definition nearest_index (g : Grid) (p : point) (c : idx) : Prop :=
  forall i j k : Z,
    let '(ci, cj, ck) := c in
    sq_distance p (_indices_to_point ci cj ck g)
    <= sq_distance p (_indices_to_point i j k g).

(** Two grids on one frame: same origin and same step counts (the spacing
    is fixed). *)
Definition same_frame (a b : Grid) : Prop :=
  point_eq (origin a) (origin b) /\ nsteps a = nsteps b.

(** [out] is [g] with a border of [k] zero-valued cells on every side. *)
Definition shift3 (c : idx) (k : Z) : idx := map3 (fun i => (i - k)%Z) c.

Definition enlarged (g out : Grid) (k : Z) : Prop :=
  point_eq (origin out) (map3 (fun x => x - inject_Z k * gs) (origin g)) /\
  nsteps out = map3 (fun n => (n + 2 * k)%Z) (nsteps g) /\
  forall c, cells out c ==
            if in_bounds g (shift3 c k) then cells g (shift3 c k) else 0.

(** Two grids that agree: same frame and same value at every cell. *)
Definition grid_eq (a b : Grid) : Prop :=
  same_frame a b /\
  forall c, in_bounds b c = true -> cells a c == cells b c.

End GridModel.

Import GridModel.

(* ================================================================== *)
(** ** [_GhecomResult] *)

Module Ghecom.

Section UpdateGrid.

(** Python's [float(s)] on a column of the ghecom output. *)
Variable py_float : string -> result Q.

(** The body of [if line.startswith("HETATM")] once the four columns are
    read: the guard and the write. *)
Definition update_cell (g : Grid) (coordinates : point) (rinacc : Q)
  : result Grid :=
  let '(i, j, k) := _point_to_indices coordinates g in
  let '(x, y, z) := nsteps g in
  if ((0 <? i)%Z && (i <? x)%Z) && ((0 <? j)%Z && (j <? y)%Z)
     && ((0 <? k)%Z && (k <? z)%Z)
  then set_value g i j k ((19 # 2) - rinacc)
  else Ok g.

(** One iteration of the loop of [update_grid]. *)
Definition update_line (g : Grid) (line : string) : result Grid :=
  if startswith "HETATM" line then
    cx <- py_float (slice 31 38 line) ;;
    cy <- py_float (slice 39 46 line) ;;
    cz <- py_float (slice 47 54 line) ;;
    rinacc <- py_float (slice 61 66 line) ;;
    update_cell g (cx, cy, cz) rinacc
  else Ok g.

(** [update_grid], on the lines read from the output file. *)
Definition update_grid (g : Grid) (lines : list string) : result Grid :=
  for_each update_line lines g.

End UpdateGrid.

(** [float] on the fixed-point columns that ghecom prints: blanks, an
    optional sign, digits and at most one point.  Other spellings that
    Python accepts (exponents, [inf], [nan]) are refused here; the reading
    serves as the [py_float] of the examples. *)
Definition digit (c : ascii) : option Z :=
  let n := nat_of_ascii c in
  if (48 <=? n)%nat && (n <=? 57)%nat then Some (Z.of_nat (n - 48)) else None.

Fixpoint all_blank (s : string) : bool :=
  match s with
  | EmptyString => true
  | String c s' => Ascii.eqb c " " && all_blank s'
  end.

Fixpoint skip_blanks (s : string) : string :=
  match s with
  | String c s' => if Ascii.eqb c " " then skip_blanks s' else s
  | EmptyString => s
  end.

Fixpoint read_decimal (s : string) (num : Z) (den : positive)
  (in_fraction seen : bool) : result Q :=
  match s with
  | EmptyString => if seen then Ok (num # den) else Raise ValueError
  | String c s' =>
      if Ascii.eqb c "." then
        if in_fraction then Raise ValueError
        else read_decimal s' num den true seen
      else if Ascii.eqb c " " then
        if seen && all_blank s' then Ok (num # den) else Raise ValueError
      else
        match digit c with
        | Some d =>
            read_decimal s' (10 * num + d)%Z
              (if in_fraction then (10 * den)%positive else den)
              in_fraction true
        | None => Raise ValueError
        end
  end.

Definition fixed_point_float (s : string) : result Q :=
  match skip_blanks s with
  | String "-" s' => q <- read_decimal s' 0 1 false false ;; Ok (- q)
  | String "+" s' => read_decimal s' 0 1 false false
  | s' => read_decimal s' 0 1 false false
  end.

End Ghecom.


(* ================================================================== *)
(** ** [_SuperstarResult] *)

Module Superstar.

(** The two settings read by [_SuperstarResult]. *)
Record Settings : Type := mkSettings {
  jobname : string;
  working_directory : string
}.

(** [s.split(".")[0]]. *)
Fixpoint before_dot (s : string) : string :=
  match s with
  | EmptyString => EmptyString
  | String c s' =>
      if Ascii.eqb c "." then EmptyString else String c (before_dot s')
  end.

(** [_SuperstarResult.correct_ligsite]. *)
Definition correct_ligsite (g l : Grid) : Grid :=
  let mask := gand (glt_scalar l 1) (ggt_scalar g 2) in
  let lc := l in
  let lc := max_value_of_neighbours lc in
  let correction := gmul mask lc in
  let correction := mean_value_of_neighbours correction in
  let corrected := gadd l correction in
  corrected.

(** The cells selected by [mask] in [correct_ligsite]. *)
Definition masked (g l : Grid) (c : idx) : bool :=
  Qltb (cells l c) 1 && Qltb 2 (cells g c).

Section Init.

(** The working directory after the subprocess call: [os.path.exists],
    [os.path.join] and [Grid.from_file]. *)
Variable exists_ : string -> bool.
Variable join : string -> string -> string.
Variable from_file : string -> result Grid.

Definition superstar_missing (identifier : string) : exn :=
  AttributeError (identifier ++ " superstar grid could not be found").

Definition ligsite_missing (identifier : string) : exn :=
  AttributeError (identifier ++ " ligsite grid could not be found").

(** [_SuperstarResult.__init__]; the result holds [self.grid] and
    [self.ligsite]. *)
Definition __init__ (settings : Settings) : result (Grid * Grid) :=
  let identifier := before_dot (jobname settings) in
  let grid_path :=
    join (working_directory settings) (identifier ++ ".ins.acnt") in
  grid <- (if exists_ grid_path then from_file grid_path
           else Raise (superstar_missing identifier)) ;;
  let ligsite_path :=
    join (working_directory settings) (identifier ++ ".ins.ligsite.acnt") in
  if exists_ grid_path then
    l <- from_file ligsite_path ;;
    Ok (grid, correct_ligsite grid l)
  else Raise (ligsite_missing identifier).

End Init.

End Superstar.

(* ================================================================== *)
(** ** [HotspotResults] *)

Module Results.

(** A dictionary of grids by probe name, in the order in which the
    dictionary is iterated.  The keys of a dictionary are distinct. *)
Definition channels : Type := list (string * Grid).

Fixpoint dict_set {V} (d : list (string * V)) (k : string) (v : V)
  : list (string * V) :=
  match d with
  | [] => [(k, v)]
  | (k', v') :: t =>
      if String.eqb k' k then (k', v) :: t else (k', v') :: dict_set t k v
  end.

Fixpoint dict_get {V} (d : list (string * V)) (k : string) : result V :=
  match d with
  | [] => Raise KeyError
  | (k', v') :: t => if String.eqb k' k then Ok v' else dict_get t k
  end.

(** Dictionaries keyed by a float. *)
Fixpoint qdict_set {V} (d : list (Q * V)) (k : Q) (v : V) : list (Q * V) :=
  match d with
  | [] => [(k, v)]
  | (k', v') :: t =>
      if Qeq_bool k' k then (k', v) :: t else (k', v') :: qdict_set t k v
  end.

Fixpoint qdict_get {V} (d : list (Q * V)) (k : Q) : option V :=
  match d with
  | [] => None
  | (k', v') :: t => if Qeq_bool k' k then Some v' else qdict_get t k
  end.

(** [sorted(keys, reverse=True)]. *)
Fixpoint insert_desc (x : Q) (l : list Q) : list Q :=
  match l with
  | [] => [x]
  | y :: t => if Qle_bool y x then x :: l else y :: insert_desc x t
  end.

Definition sorted_desc (l : list Q) : list Q := fold_right insert_desc [] l.

(** [int(x)] on a float: truncation towards zero. *)
Definition int (q : Q) : Z := Z.quot (Qnum q) (Z.pos (Qden q)).

(** *** [_single_grid] *)

(** [[self.super_grids[p] for p in self.super_grids.keys() if p != probe]]. *)
Definition other_grids (super_grids : channels) (probe : string) : list Grid :=
  map snd (filter (fun kv => negb (String.eqb (fst kv) probe)) super_grids).

(** [g * ((g > other_grids[0]) & (g > other_grids[1]))]. *)
Definition single_owner (g o0 o1 : Grid) : Grid :=
  gmul g (gand (ggt g o0) (ggt g o1)).

(** The body of the inner loop of [_single_grid]. *)
Definition mask_channel (super_grids : channels) (masked_grids : channels)
  (item : string * Grid) : result channels :=
  let '(probe, g) := item in
  let others := other_grids super_grids probe in
  o0 <- getitem others 0 ;;
  o1 <- getitem others 1 ;;
  let mg := single_owner g o0 o1 in
  Ok (dict_set masked_grids probe mg).

(** [_single_grid]: the outer loop starts a fresh dictionary at each turn;
    with no channel at all [masked_grids] is never bound. *)
Definition _single_grid (super_grids : channels) : result channels :=
  r <- for_each
         (fun (_ : option channels) (_ : string * Grid) =>
            m <- for_each (mask_channel super_grids) super_grids [] ;;
            Ok (Some m))
         super_grids None ;;
  match r with
  | Some masked_grids => Ok masked_grids
  | None => Raise UnboundLocalError
  end.

(** The first part of [best_continuous_volume]: the sum of the single-owner
    grids, with the cells of [pocket_mask] zeroed.  [pocket_mask] is [None]
    for the default [False]. *)
Definition composite (masked_grids : channels) (pocket_mask : option Grid)
  : result Grid :=
  let all_g := map snd masked_grids in
  sum_g <- getitem all_g 0 ;;
  let sum_g := fold_left gadd (tl all_g) sum_g in
  Ok match pocket_mask with
     | Some pm =>
         let '(com_sum_grid, com_pocket_mask) := _common_grid sum_g pm 0 in
         gmul com_sum_grid (glt_scalar com_pocket_mask 1)
     | None => sum_g
     end.

Section Volume.

(** [Grid.islands(threshold)], of the imported [Grid] class, and
    [scipy.optimize.fminbound(f, lo, hi, xtol)]. *)
Variable islands : Grid -> Q -> list Grid.
Variable fminbound : (Q -> Q) -> Q -> Q -> Q -> Q.

(** *** [_island_by_volume] *)

Definition island_points (g : Grid) (score_cutoff : Q) : list Q :=
  filter (fun v => Qle_bool score_cutoff v) (map (cells g) (all_cells g)).

(** [None] stands for Python's [None], returned when there is no island. *)
Definition _island_by_volume (sg : Grid) (score_cutoff : Q) : option Grid :=
  let island := islands sg score_cutoff in
  let island_by_total :=
    fold_left (fun d g => qdict_set d (Qsum (island_points g score_cutoff)) g)
      island [] in
  match sorted_desc (map fst island_by_total) with
  | [] => None
  | top_score :: _ => qdict_get island_by_total top_score
  end.

Definition count_points (tmp_g : Grid) (cutoff : Q) : Z :=
  Z.of_nat (List.length
    (filter (fun c => Qle_bool cutoff (cells tmp_g c)) (all_cells tmp_g))).

(** [_count_non_zero]; [self.sg] and [self.num_gp] are passed along. *)
Definition _count_non_zero (sg : Grid) (num_gp : Z) (cutoff : Q) : Q :=
  match _island_by_volume sg cutoff with
  | None => 9999
  | Some tmp_g => inject_Z (Z.abs (num_gp - count_points tmp_g cutoff))
  end.

(** [_count_non_zero_alt]. *)
Definition _count_non_zero_alt (sg : Grid) (num_gp : Z) (cutoff : Q) : Z :=
  match _island_by_volume sg cutoff with
  | None => 0
  | Some tmp_g => (num_gp - count_points tmp_g cutoff)%Z
  end.

(** *** [_get_grid_by_volume] *)

Definition qdict_append (d : list (Q * list point)) (k : Q) (p : point)
  : list (Q * list point) :=
  match qdict_get d k with
  | Some ps => qdict_set d k (ps ++ [p])
  | None => qdict_set d k [p]
  end.

(** The loop over [scores]: [kept] is [len(kept_points)]. *)
Fixpoint select_cutoff (all_points : list (Q * list point)) (num_gp : Z)
  (scores : list Q) (kept : Z) (new_cutoff : option Q) : option Q :=
  match scores with
  | [] => new_cutoff
  | score :: rest =>
      let n := match qdict_get all_points score with
               | Some ps => Z.of_nat (List.length ps)
               | None => 0%Z
               end in
      let kept' := (kept + n)%Z in
      if (num_gp <=? kept')%Z then Some score
      else select_cutoff all_points num_gp rest kept' (Some score)
  end.

Definition _get_grid_by_volume (sg : Grid) (volume : Q) : result Grid :=
  let num_gp := int (volume / (1 # 8)) in
  let score_cutoff := fminbound (_count_non_zero sg num_gp) 0 30 (25 # 1000) in
  let score_cutoff :=
    if (_count_non_zero_alt sg num_gp score_cutoff <? 0)%Z
    then score_cutoff - (25 # 1000) else score_cutoff in
  let score_cutoff := if Qle_bool 29 score_cutoff then 1 else score_cutoff in
  match _island_by_volume sg score_cutoff with
  | None => Ok (gmul_scalar sg 0)
  | Some tmp_g =>
      let '(c_sg, top_g) := _common_grid sg tmp_g 0 in
      all_points <-
        for_each (fun d c =>
                    let '(i, j, k) := c in
                    let coords := _indices_to_point i j k tmp_g in
                    v <- value_at_point c_sg coords ;;
                    Ok (qdict_append d v coords))
          (all_cells tmp_g) [] ;;
      let scores := sorted_desc (map fst all_points) in
      match select_cutoff all_points num_gp scores 0 None with
      | None => Raise UnboundLocalError
      | Some new_cutoff => Ok (ggt_scalar top_g new_cutoff)
      end
  end.

(** *** [best_continuous_volume]

    The result holds the grids of the two [HotspotResults] that are
    returned. *)
Definition best_continuous_volume (super_grids : channels) (volume : Q)
  (pocket_mask : option Grid) : result (channels * channels) :=
  masked_grids <- _single_grid super_grids ;;
  sum_g <- composite masked_grids pocket_mask ;;
  second_mask <- _get_grid_by_volume sum_g volume ;;
  processed_grids <-
    for_each (fun processed item =>
                let '(probe, g) := item in
                mg <- dict_get masked_grids probe ;;
                let '(c_mg, c_second_mask) := _common_grid mg second_mask 0 in
                let out_g := gmul c_mg c_second_mask in
                Ok (dict_set processed probe out_g))
      super_grids [] ;;
  remaining <-
    for_each (fun remaining item =>
                let '(probe, g) := item in
                b <- dict_get processed_grids probe ;;
                Ok (dict_set remaining probe (gsub g b)))
      super_grids [] ;;
  Ok (processed_grids, remaining).

End Volume.

End Results.

(* ================================================================== *)
(** ** [Hotspots._Sampler] *)

Module Sampler.

Local Open Scope R_scope.

Definition coords : Type := (R * R * R)%type.

(** What the sampler reads of an atom of the probe. *)
Record Atom : Type := mkAtom {
  label : string;
  coordinates : coords;
  is_donor : bool;
  is_acceptor : bool;
  formal_charge : Z;
  atomic_symbol : string
}.

(** [molecule.atoms]. *)
Definition Molecule : Type := list Atom.

(** [Settings]: the class attributes are the defaults. *)
Record Settings : Type := mkSettings {
  nrotations : Z;
  apolar_translation_threshold : Z;
  polar_translation_threshold : Z;
  polar_contributions : bool
}.

Definition default_settings : Settings := mkSettings 3000 15 15 false.

(** [_HotspotsHelper._get_distance]. *)
Definition _get_distance (coords1 coords2 : coords) : R :=
  let '(x1, y1, z1) := coords1 in
  let '(x2, y2, z2) := coords2 in
  let xd := x1 - x2 in
  let yd := y1 - y2 in
  let zd := z1 - z2 in
  sqrt (xd ^ 2 + yd ^ 2 + zd ^ 2).

Definition Rsum (l : list R) : R := fold_right Rplus 0 l.

(** Modelled from the spec: [molecule.centre_of_geometry()] belongs to the
    molecule class that the module imports.  The spec calls it the centroid:
    the mean of the coordinates of the atoms. *)
Definition centre_of_geometry (molecule : Molecule) : coords :=
  let n := INR (List.length molecule) in
  (Rsum (map (fun a => fst (fst (coordinates a))) molecule) / n,
   Rsum (map (fun a => snd (fst (coordinates a))) molecule) / n,
   Rsum (map (fun a => snd (coordinates a)) molecule) / n).

(** Dictionaries keyed by a float. *)
Fixpoint rdict_set {V} (d : list (R * V)) (k : R) (v : V) : list (R * V) :=
  match d with
  | [] => [(k, v)]
  | (k', v') :: t =>
      if Req_dec_T k' k then (k', v) :: t else (k', v') :: rdict_set t k v
  end.

Fixpoint rdict_get {V} (d : list (R * V)) (k : R) : result V :=
  match d with
  | [] => Raise KeyError
  | (k', v') :: t => if Req_dec_T k' k then Ok v' else rdict_get t k
  end.

(** [sorted(keys)[0]]: the smallest key. *)
Definition sorted_first (keys : list R) : result R :=
  match keys with
  | [] => Raise IndexError
  | k :: t => Ok (fold_left Rmin t k)
  end.

Definition is_polar (a : Atom) : bool := is_donor a || is_acceptor a.

(** The dictionary that one of the two loops of [get_priority_atom] fills. *)
Definition by_distance (c : coords) (atoms : list Atom) : list (R * Atom) :=
  fold_left (fun d a => rdict_set d (_get_distance c (coordinates a)) a)
    atoms [].

(** [get_priority_atom]. *)
Definition get_priority_atom (molecule : Molecule) : result (Atom * string) :=
  let c := centre_of_geometry molecule in
  let polar_atoms := filter is_polar molecule in
  let atom_by_distance :=
    if (0 <? List.length polar_atoms)%nat
    then by_distance c polar_atoms
    else by_distance c molecule in
  greatest_distance <- sorted_first (map fst atom_by_distance) ;;
  priority_atom <- rdict_get atom_by_distance greatest_distance ;;
  let pa_type :=
    if negb (formal_charge priority_atom =? 0)%Z then
      if (formal_charge priority_atom <? 0)%Z then "negative"%string
      else "positive"%string
    else if is_acceptor priority_atom then "acceptor"%string
    else if is_donor priority_atom then "donor"%string
    else "apolar"%string in
  Ok (priority_atom, pa_type).

(** *** Random quaternions *)

Definition quaternion : Type := (R * R * R * R)%type.

(** The tuple built from two accepted pairs of draws. *)
Definition make_quaternion (r1 r2 r3 r4 : R) : quaternion :=
  let s1 := r1 * r1 + r2 * r2 in
  let s2 := r3 * r3 + r4 * r4 in
  (r1, r2, r3 * sqrt ((1 - s1) / s2), r4 * sqrt ((1 - s1) / s2)).

Definition norm2 (q : quaternion) : R :=
  let '(a, b, c, d) := q in a * a + b * b + c * c + d * d.

(** The [while] loop of [generate_rand_quaternions].  [draws] holds the
    values that the successive calls of [random.uniform(-1, 1)] return;
    [None] means that the loop asks for more draws than were supplied.  The
    division by [s2] raises when [s2] is zero. *)
Fixpoint rand_loop (nrotations : Z) (draws : list R) (i : Z)
  (quaternions : list quaternion) : option (result (list quaternion)) :=
  if (i <=? nrotations)%Z then
    match draws with
    | r1 :: r2 :: rest =>
        let s1 := r1 * r1 + r2 * r2 in
        if Rlt_dec s1 1 then
          match rest with
          | r3 :: r4 :: rest' =>
              let s2 := r3 * r3 + r4 * r4 in
              if Rlt_dec s2 1 then
                if Req_dec_T s2 0 then Some (Raise ZeroDivisionError)
                else rand_loop nrotations rest' (i + 1)%Z
                       (quaternions ++ [make_quaternion r1 r2 r3 r4])
              else rand_loop nrotations rest' i quaternions
          | _ => None
          end
        else rand_loop nrotations rest i quaternions
    | _ => None
    end
  else Some (Ok quaternions).

(** [generate_rand_quaternions]. *)
Definition generate_rand_quaternions (settings : Settings) (draws : list R)
  : option (result (list quaternion)) :=
  if (nrotations settings >? 1)%Z
  then rand_loop (nrotations settings) draws 1%Z []
  else Some (Ok []).

(** *** Scoring *)

(** [x ** y] on floats, for the exponents [1. / n] that [score] uses: a
    negative base is refused unless the exponent is a whole number. *)
Definition float_pow (x y : R) : result R :=
  if Rlt_dec 0 x then Ok (Rpower x y)
  else if Req_dec_T x 0 then Ok 0
  else if Req_dec_T y 1 then Ok x
  else Raise ValueError.

(** [1. / n]. *)
Definition float_div (x : R) (n : nat) : result R :=
  match n with
  | O => Raise ZeroDivisionError
  | S _ => Ok (x / INR n)
  end.

(** [score]: the operands of [**] are evaluated from left to right. *)
Definition score (values : list R) : result R :=
  let product := fold_left Rmult values 1 in
  exponent <- float_div 1 (List.length values) ;;
  float_pow product exponent.

(** A sampled grid: its name, the atoms of its molecule and the lookup of
    the underlying grid at a point, which fails outside the grid. *)
Record SampleGrid : Type := mkSampleGrid {
  name : string;
  mol_atoms : list Atom;
  grid_value : coords -> result R
}.

(** [_SampleGrid.add_coordinates]. *)
Definition add_coordinates (coord trans : coords) : coords :=
  let '(x, y, z) := coord in
  let '(tx, ty, tz) := trans in
  (x + tx, y + ty, z + tz).

Fixpoint traverse {A B} (f : A -> result B) (l : list A) : result (list B) :=
  match l with
  | [] => Ok []
  | a :: t => b <- f a ;; bs <- traverse f t ;; Ok (b :: bs)
  end.

(** [_SampleGrid.sample]: only [RuntimeError] is caught. *)
Definition sample (g : SampleGrid) (coordinate_list : list coords)
  (trans : coords) : result (list R) :=
  match traverse (fun c => grid_value g (add_coordinates c trans))
          coordinate_list with
  | Raise RuntimeError => Ok [0]
  | r => r
  end.

(** [l * n] on lists. *)
Definition repeat_list {A} (l : list A) (n : Z) : list A :=
  List.concat (repeat l (Z.to_nat n)).

(** [sample_pose]. *)
Definition sample_pose (grids : list SampleGrid) (trans : coords)
  (active_atoms_dic : string -> list coords) (probe : string)
  : result R :=
  let active (g : SampleGrid) :=
    (0 <? List.length (active_atoms_dic (name g)))%nat in
  let sampled (g : SampleGrid) := sample g (active_atoms_dic (name g)) trans in
  values <-
    (if String.eqb probe "negative" || String.eqb probe "positive" then
       atoms <- getitem
                  (map mol_atoms
                     (filter (fun g => String.eqb (name g) "positive") grids))
                  0 ;;
       carbons <- float_div 6
                    (List.length
                       (filter (fun a => String.eqb (atomic_symbol a) "C")
                          atoms)) ;;
       let weight := Int_part carbons in
       apolar_values <-
         traverse sampled
           (filter (fun g => active g && String.eqb (name g) "apolar") grids) ;;
       charged_values <-
         traverse sampled
           (filter (fun g => active g && negb (String.eqb (name g) "apolar"))
              grids) ;;
       Ok (repeat_list apolar_values weight ++ charged_values)
     else
       traverse sampled (filter active grids)) ;;
  let scores := List.concat values in
  score scores.

End Sampler.

(* ================================================================== *)
(** ** The atom predicates of [_SampleGrid] *)

Module Channel.

Import Sampler.

(** [_SampleGrid.is_donor]. *)
Definition is_donor (a : Atom) : bool :=
  if Sampler.is_donor a && (formal_charge a =? 0)%Z then true else false.

(** [_SampleGrid.is_acceptor]. *)
Definition is_acceptor (a : Atom) : bool :=
  if Sampler.is_acceptor a && (formal_charge a =? 0)%Z then true else false.

(** [_SampleGrid.is_apolar]. *)
Definition is_apolar (a : Atom) : bool :=
  if Sampler.is_donor a || Sampler.is_acceptor a
     || negb (formal_charge a =? 0)%Z || String.eqb (atomic_symbol a) "Xe"
  then false else true.

(** [_SampleGrid.is_positive]. *)
Definition is_positive (a : Atom) : bool := (0 <? formal_charge a)%Z.

(** [_SampleGrid.is_negative]. *)
Definition is_negative (a : Atom) : bool := (formal_charge a <? 0)%Z.

(** The predicate that [Hotspots._get_out_maps] attaches to the grid of a
    channel. *)
Definition predicate_of (channel : string) : option (Atom -> bool) :=
  if String.eqb channel "donor" then Some is_donor
  else if String.eqb channel "acceptor" then Some is_acceptor
  else if String.eqb channel "apolar" then Some is_apolar
  else if String.eqb channel "negative" then Some is_negative
  else if String.eqb channel "positive" then Some is_positive
  else None.

End Channel.

(* ================================================================== *)
(** ** The draws of [generate_rand_quaternions], four at a time *)

Module Draws.

Import Sampler.

Local Open Scope R_scope.





End Draws.

(* ================================================================== *)
(** ** Scoring against the grids of a [HotspotResults] *)

Module Scoring.

Import Results.

(** [range(a, b)]. *)
Definition range2 (a b : Z) : list Z :=
  map (fun n => (a + Z.of_nat n)%Z) (seq 0 (Z.to_nat (b - a))).

(** What [_get_near_score] returns: [(0, "outside")], [(0, 0)] or the score
    with the point where it was found. *)
Inductive near : Type :=
| Outside
| Nothing
| Found (score : Q) (at_point : point).

(** The first component of the pair. *)
Definition near_score (n : near) : Q :=
  match n with
  | Found score _ => score
  | _ => 0
  end.

(** The indices [(i + di, j + dj, k + dk)] of the comprehension of
    [_get_near_score], in the order in which it runs through them. *)
Definition nearby (c : idx) (tolerance : Z) : list idx :=
  let '(i, j, k) := c in
  flat_map (fun di => flat_map (fun dj => map (fun dk =>
    ((i + di)%Z, (j + dj)%Z, (k + dk)%Z))
    (range2 (- tolerance) (tolerance + 1)))
    (range2 (- tolerance) (tolerance + 1)))
    (range2 (- tolerance) (tolerance + 1)).

(** [HotspotResults._get_near_score]. *)
Definition _get_near_score (super_grids : channels) (coordinates : point)
  (atom_type : string) (tolerance : Z) : result near :=
  g0 <- dict_get super_grids atom_type ;;
  let '(i, j, k) := _point_to_indices coordinates g0 in
  let '(nx, ny, nz) := nsteps g0 in
  if (nx - i <? tolerance + 1)%Z || (ny - j <? tolerance + 1)%Z
     || (nz - k <? tolerance + 1)%Z
  then Ok Outside
  else if (i <? tolerance)%Z || (j <? tolerance)%Z || (k <? tolerance)%Z
  then Ok Outside
  else
    let g := g0 in
    scores <-
      for_each (fun d c =>
                  let '(ci, cj, ck) := c in
                  v <- value g ci cj ck ;;
                  Ok (qdict_set d v c))
        (nearby (i, j, k) tolerance) [] ;;
    score <- getitem (sorted_desc (map fst scores)) 0 ;;
    if Qltb score (1 # 100) then Ok Nothing
    else
      match qdict_get scores score with
      | Some (ci, cj, ck) => Ok (Found score (_indices_to_point ci cj ck g))
      | None => Raise KeyError
      end.

(** [HotspotResults._get_percentage_rank], on the coordinates of the
    atom. *)
Definition _get_percentage_rank (super_grids : channels)
  (coordinates : point) (atom_type : string) : result Q :=
  found <- _get_near_score super_grids coordinates atom_type 2 ;;
  let score := near_score found in
  g <- dict_get super_grids atom_type ;;
  let scores := filter (fun v => Qltb 0 v) (map (cells g) (all_cells g)) in
  let filtered_scores := filter (fun x => Qltb x score) scores in
  match List.length scores with
  | O => Raise ZeroDivisionError
  | S _ =>
      Ok (100 * inject_Z (Z.of_nat (List.length filtered_scores))
          / inject_Z (Z.of_nat (List.length scores)))
  end.

Section Percentiles.

(** [numpy.percentile(values, q)]. *)
Variable percentile : list Q -> Q -> Q.

(** The indices that the comprehension of [_get_grid_percentiles] runs
    through: the third index ranges over [range(0, ny)]. *)
Definition percentile_cells (g : Grid) : list idx :=
  let '(nx, ny, nz) := nsteps g in
  flat_map (fun i => flat_map (fun j => map (fun k => (i, j, k)) (range ny))
                       (range ny))
    (range nx).

(** [HotspotResults._get_grid_percentiles]; the dictionary [percentiles]
    is given in the order in which it is iterated. *)
Definition _get_grid_percentiles (g : Grid) (percentiles : list (string * Q))
  : result (list (string * Q)) :=
  looked_up <-
    Sampler.traverse (fun c => let '(i, j, k) := c in value g i j k)
      (percentile_cells g) ;;
  let values := filter (fun v => Qltb 1 v) looked_up in
  match values with
  | [] => Ok []
  | _ :: _ =>
      Ok (fold_left
            (fun d item =>
               let '(strength, p) := item in
               dict_set d strength (percentile values p - (1 # 100)))
            percentiles [])
  end.

End Percentiles.

End Scoring.

(* ================================================================== *)
(** ** The output grids of the sampler *)

Module OutGrids.

(** A probe grid of the sampler: the name of its channel and the grid that
    collects the scores. *)
Record ProbeGrid : Type := mkProbeGrid {
  pg_name : string;
  pg_grid : Grid
}.

(** [max(a, b)]: the first argument unless the second is larger. *)
Definition py_max (a b : Q) : Q := if Qltb a b then b else a.

(** [_SampleGrid.add_coordinates], on the coordinates of the grid code. *)
Definition add_coordinates (coord trans : point) : point :=
  let '(x, y, z) := coord in
  let '(tx, ty, tz) := trans in
  (x + tx, y + ty, z + tz).

(** The inner loop of [update_out_grids]: one write per active atom. *)
Definition update_actives (score : Q) (trans : point) (grid : Grid)
  (actives : list point) : result Grid :=
  for_each (fun g a =>
              let '(i, j, k) := _point_to_indices (add_coordinates a trans) g in
              v <- value g i j k ;;
              set_value g i j k (py_max score v))
    actives grid.

(** One turn of the outer loop of [update_out_grids]: a probe grid without
    active atoms is passed over. *)
Definition update_probe (score : Q)
  (active_coordinates_dic : string -> list point) (trans : point)
  (pg : ProbeGrid) : result ProbeGrid :=
  let actives := active_coordinates_dic (pg_name pg) in
  if (List.length actives =? 0)%nat then Ok pg
  else
    g <- update_actives score trans (pg_grid pg) actives ;;
    Ok (mkProbeGrid (pg_name pg) g).

(** [Hotspots._Sampler.update_out_grids]: the probe grids after the
    update. *)
Definition update_out_grids (probe_grids : list ProbeGrid) (score : Q)
  (active_coordinates_dic : string -> list point) (trans : point)
  : result (list ProbeGrid) :=
  Sampler.traverse (update_probe score active_coordinates_dic trans)
    probe_grids.

(** The cells that an update writes to. *)
Definition touched (trans : point) (grid : Grid) (actives : list point)
  : list idx :=
  map (fun a => _point_to_indices (add_coordinates a trans) grid) actives.

End OutGrids.

(* ================================================================== *)
(** ** Weighting by buriedness *)

Module Weighting.

(** What [_get_weighted_maps] reads of a [_SuperstarResult]. *)
Record SuperstarResult : Type := mkSuperstarResult {
  identifier : string;
  grid : Grid;
  ligsite : Grid
}.

(** One turn of the loop of [Hotspots._get_weighted_maps]; [ghecom] holds
    the grid of the ghecom run when there is a ghecom executable. *)
Definition weighted_map (ghecom : option Grid) (s : SuperstarResult)
  : string * Grid :=
  let buriedness := match ghecom with
                    | Some g => g
                    | None => ligsite s
                    end in
  let '(s_grid, buriedness) := _common_grid (grid s) buriedness 1 in
  let weighted_grid := gmul s_grid buriedness in
  (identifier s, weighted_grid).

(** [Hotspots._get_weighted_maps]: the identifier and the grid of every
    [_WeightedResult]. *)
Definition _get_weighted_maps (ghecom : option Grid)
  (superstar_grids : list SuperstarResult) : list (string * Grid) :=
  map (weighted_map ghecom) superstar_grids.

End Weighting.

(* ================================================================== *)
(** ** Selectivity maps *)

Module Selectivity.

Import Results.

(** The names that class [Hotspots] defines in its body, followed by those
    it inherits from [_HotspotsHelper]; [object] adds its own special
    names. *)
Definition hotspots_attributes : list string :=
  ["_Sampler"; "__init__"; "_get_cavity_centroid"; "_superstar_job";
   "_run_ss"; "_get_weighted_maps"; "_get_out_maps"; "_calc_hotspots";
   "_from_grid_dic"; "from_zip_dir"; "from_protein";
   "_indices_to_point"; "_point_to_indices"; "_get_distance";
   "_copy_and_clear"; "_common_grid"; "contains_point"; "grid_score";
   "_get_lines_from_file"]%string.

(** [cls.name] on a class with the given attributes. *)
Definition class_attribute (cls : string) (attributes : list string)
  (name : string) : result string :=
  if existsb (String.eqb name) attributes then Ok name
  else Raise (AttributeError
                ("type object '" ++ cls ++ "' has no attribute '" ++ name
                 ++ "'")).

(** [HotspotResults.get_selectivity_map]: the grids of the result that is
    returned.  [_common_grid] is called with its default padding; the result
    object is built through [Hotspots.HotspotResults]. *)
Definition get_selectivity_map (super_grids other : channels)
  : result channels :=
  selectivity_grids <-
    for_each (fun selectivity_grids probe =>
                g1 <- dict_get super_grids probe ;;
                g2 <- dict_get other probe ;;
                let '(og1, og2) := _common_grid g1 g2 default_padding in
                let sele := gsub og1 og2 in
                Ok (dict_set selectivity_grids probe sele))
      (map fst super_grids) [] ;;
  constructor <- class_attribute "Hotspots" hotspots_attributes
                   "HotspotResults" ;;
  Ok selectivity_grids.

End Selectivity.

(* ================================================================== *)
(** ** Inputs of the examples *)

Module Inputs.

(** A grid of all-zero cells. *)
Definition blank (o : point) (n : idx) : Grid := mkGrid o n (fun _ => 0).

(** A 2x2x2 grid at the origin. *)
Definition cube2 : Grid := blank (0, 0, 0) (2, 2, 2)%Z.

(** Records of a ghecom output: an atom on the corner of [cube2], one on its
    inner cell and one far outside. *)
Definition hetatm_corner : string :=
  "HETATM    1  CA  GRD A   1       0.000   0.000   0.000        2.00".
Definition hetatm_inner : string :=
  "HETATM    1  CA  GRD A   1       0.500   0.500   0.500        2.00".
Definition hetatm_outside : string :=
  "HETATM    1  CA  GRD A   1       5.000   0.500   0.500        2.00".

(** A row of three cells: the burial grid reports a clash at the first cell,
    where the propensity is favourable, and is 4 at the other two. *)
Definition burial_row : Grid :=
  mkGrid (0, 0, 0) (3, 1, 1)%Z
    (fun c => let '(i, _, _) := c in if (i =? 0)%Z then 0 else 4).
Definition propensity_row : Grid :=
  mkGrid (0, 0, 0) (3, 1, 1)%Z
    (fun c => let '(i, _, _) := c in if (i =? 0)%Z then 3 else 0).


(** One-cell grids, and a result with five channels in the order in which
    its dictionary is iterated. *)
Definition cell1 (v : Q) : Grid := mkGrid (0, 0, 0) (1, 1, 1)%Z (fun _ => v).
Definition five_channels : Results.channels :=
  [("apolar"%string, cell1 3); ("donor"%string, cell1 0);
   ("acceptor"%string, cell1 0); ("positive"%string, cell1 5);
   ("negative"%string, cell1 0)].

(** A result whose three channels are blank. *)
Definition blank_channels : Results.channels :=
  [("apolar"%string, cell1 0); ("donor"%string, cell1 0);
   ("acceptor"%string, cell1 0)].

(** Rows of two cells, and a result with three channels: apolar is the
    highest channel on the first cell, donor on the second. *)
Definition row2 (a b : Q) : Grid :=
  mkGrid (0, 0, 0) (2, 1, 1)%Z
    (fun c => let '(i, _, _) := c in if (i =? 0)%Z then a else b).
Definition three_channels : Results.channels :=
  [("apolar"%string, row2 3 1); ("donor"%string, row2 1 3);
   ("acceptor"%string, row2 2 2)].

(** A 5x5x5 grid whose values rise with the index, from 1 to 125, and a
    result that has it as its apolar channel. *)
Definition ramp5 : Grid :=
  mkGrid (0, 0, 0) (5, 5, 5)%Z
    (fun c => let '(i, j, k) := c in inject_Z (25 * i + 5 * j + k + 1)).
Definition ramp_channels : Results.channels := [("apolar"%string, ramp5)].

(** Stand-ins for [Grid.islands] and [fminbound] in the examples: the whole
    grid counts as one island as soon as one of its cells exceeds the
    threshold, and the search stops at its first probe of the interval. *)
Definition whole_grid_islands (g : Grid) (threshold : Q) : list Grid :=
  if existsb (fun c => Qltb threshold (cells g c)) (all_cells g)
  then [g] else [].
Definition first_probe (f : Q -> Q) (lo hi xtol : Q) : Q :=
  lo + (381966 # 1000000) * (hi - lo).

(** A probe with a donor at distance 3 from its centre of geometry, an
    acceptor at distance 1 and a carbon at distance 2. *)
Definition far_donor : Sampler.Atom :=
  Sampler.mkAtom "N1" (3, 0, 0)%R true false 0 "N".
Definition near_acceptor : Sampler.Atom :=
  Sampler.mkAtom "O1" (-1, 0, 0)%R false true 0 "O".
Definition carbon : Sampler.Atom :=
  Sampler.mkAtom "C1" (-2, 0, 0)%R false false 0 "C".
Definition probe : Sampler.Molecule := [far_donor; near_acceptor; carbon].

(** Settings that ask for one rotation, and for two. *)
Definition one_rotation : Sampler.Settings :=
  Sampler.mkSettings 1 15 15 false.
Definition two_rotations : Sampler.Settings :=
  Sampler.mkSettings 2 15 15 false.

(** Draws of [random.uniform(-1, 1)]: two accepted pairs, twice. *)
Definition draws : list R :=
  [0; 0; 1 / 2; 1 / 2; 0; 0; 1 / 2; 1 / 2]%R.

(** An apolar grid with no molecule, which is 17 everywhere. *)
Definition apolar_grid : Sampler.SampleGrid :=
  Sampler.mkSampleGrid "apolar" [] (fun _ => Ok 17%R).

(** A probe grid on [cube2], a dictionary with one active atom on its inner
    cell and one with an active atom far outside. *)
Definition donor_probe_grid : OutGrids.ProbeGrid :=
  OutGrids.mkProbeGrid "donor" cube2.
Definition inner_atom (name : string) : list point :=
  if String.eqb name "donor" then [(1 # 2, 1 # 2, 1 # 2)] else [].
Definition stray_atom (name : string) : list point :=
  if String.eqb name "donor" then [(5, 0, 0)] else [].

(** The result of a SuperStar job on the row of three cells. *)
Definition superstar_row : Weighting.SuperstarResult :=
  Weighting.mkSuperstarResult "apolar" propensity_row burial_row.

End Inputs.

(* ================================================================== *)
(** * Properties *)

Unset Implicit Arguments.

(** ** [_GhecomResult.update_grid] *)

Import Ghecom.

Lemma guard_in_bounds (g : Grid) (i j k x y z : Z) :
  nsteps g = (x, y, z) ->
  ((0 <? i)%Z && (i <? x)%Z) && ((0 <? j)%Z && (j <? y)%Z)
  && ((0 <? k)%Z && (k <? z)%Z) = true ->
  in_bounds g (i, j, k) = true.
Proof.
  intros Hn Hg. unfold in_bounds. rewrite Hn.
  repeat (apply andb_prop in Hg; destruct Hg as [Hg ?]).
  repeat match goal with
         | H : (_ <? _)%Z = true |- _ => apply Z.ltb_lt in H
         end.
  repeat (apply andb_true_intro; split);
    try (apply Z.leb_le; lia); apply Z.ltb_lt; lia.
Qed.

(** What one guarded write does to the grid. *)
Lemma update_cell_spec (g : Grid) (coordinates : point) (rinacc : Q) :
  update_cell g coordinates rinacc =
  let '(i, j, k) := _point_to_indices coordinates g in
  let '(x, y, z) := nsteps g in
  Ok (if ((0 <? i)%Z && (i <? x)%Z) && ((0 <? j)%Z && (j <? y)%Z)
         && ((0 <? k)%Z && (k <? z)%Z)
      then mkGrid (origin g) (nsteps g)
             (fun c => if idx_eqb c (i, j, k) then (19 # 2) - rinacc
                       else cells g c)
      else g).
Proof.
  unfold update_cell.
  destruct (_point_to_indices coordinates g) as [[i j] k].
  destruct (nsteps g) as [[x y] z] eqn:Hn.
  destruct (((0 <? i)%Z && (i <? x)%Z) && ((0 <? j)%Z && (j <? y)%Z)
            && ((0 <? k)%Z && (k <? z)%Z)) eqn:Hg; [|reflexivity].
  unfold set_value. rewrite (guard_in_bounds g i j k x y z Hn Hg).
  rewrite Hn. reflexivity.
Qed.

(** ** [_HotspotsHelper._common_grid] *)

Local Open Scope Q_scope.

Lemma Qfloor_unique (y : Q) (z : Z) :
  inject_Z z <= y -> y < inject_Z (z + 1) -> Qfloor y = z.
Proof.
  intros Hlo Hhi.
  pose proof (Qfloor_le y) as H1. pose proof (Qlt_floor y) as H2.
  assert (inject_Z (Qfloor y) < inject_Z (z + 1)) as H3
    by (eapply Qle_lt_trans; eassumption).
  assert (inject_Z z < inject_Z (Qfloor y + 1)) as H4
    by (eapply Qle_lt_trans; eassumption).
  rewrite <- Zlt_Qlt in H3, H4. lia.
Qed.

Lemma Qfloor_inject (y : Q) (z : Z) : y == inject_Z z -> Qfloor y = z.
Proof.
  intros H. apply Qfloor_unique; rewrite H.
  - apply Qle_refl.
  - rewrite <- Zlt_Qlt. lia.
Qed.

(** Rounding a whole number leaves it as it is. *)
Lemma round_inject (y : Q) (z : Z) : y == inject_Z z -> Py.round y = z.
Proof.
  intros H. unfold Py.round. destruct (Qle_bool 0 y).
  - apply Qfloor_unique; rewrite H.
    + rewrite <- (Qplus_0_r (inject_Z z)) at 1.
      apply Qplus_le_r. discriminate.
    + rewrite inject_Z_plus. apply Qplus_lt_r. reflexivity.
  - unfold Qceiling.
    enough (Qfloor (- (y - (1 # 2))) = (- z)%Z) by lia.
    apply Qfloor_unique; rewrite H.
    + rewrite inject_Z_opp.
      setoid_replace (- (inject_Z z - (1 # 2))) with (- inject_Z z + (1 # 2))
        by ring.
      rewrite <- (Qplus_0_r (- inject_Z z)) at 1.
      apply Qplus_le_r. discriminate.
    + rewrite inject_Z_plus, inject_Z_opp.
      setoid_replace (- (inject_Z z - (1 # 2))) with (- inject_Z z + (1 # 2))
        by ring.
      apply Qplus_lt_r. reflexivity.
Qed.

Lemma pad_nonneg (k : Z) : (0 <= k)%Z -> 0 <= inject_Z k * gs.
Proof.
  intros H. apply Qmult_le_0_compat.
  - change 0 with (inject_Z 0). rewrite <- Zle_Qle. exact H.
  - discriminate.
Qed.

Section Axis.

(** One axis of [super_grid p g [h]], where the frame of [h] is that of [g]
    with a border of [m] cells. *)
Variables (p m n nh : Z) (og oh : Q).
Hypothesis Hp : (0 <= p)%Z.
Hypothesis Hm : (0 <= m)%Z.
Hypothesis Ho : oh == og - inject_Z m * gs.
Hypothesis Hn : nh = (n + 2 * m)%Z.

Lemma axis_min : Qmin og oh == og - inject_Z m * gs.
Proof.
  rewrite Q.min_r; [exact Ho|]. rewrite Ho.
  pose proof (pad_nonneg m Hm). Lqa.lra.
Qed.

Lemma axis_max :
  Qmax (og + inject_Z (n - 1) * gs) (oh + inject_Z (nh - 1) * gs)
  == og + inject_Z (n - 1) * gs + inject_Z m * gs.
Proof.
  assert (E : oh + inject_Z (nh - 1) * gs
              == og + inject_Z (n - 1) * gs + inject_Z m * gs).
  { rewrite Ho, Hn.
    replace (n + 2 * m - 1)%Z with ((n - 1) + (m + m))%Z by lia.
    rewrite !inject_Z_plus. ring. }
  rewrite Q.max_r; [exact E|]. rewrite E.
  pose proof (pad_nonneg m Hm). Lqa.lra.
Qed.

Lemma axis_origin :
  Qmin og oh - inject_Z p * gs == og - inject_Z (m + p) * gs.
Proof. rewrite axis_min, inject_Z_plus. ring. Qed.

Lemma axis_steps :
  (Qfloor
     ((Qmax (og + inject_Z (n - 1) * gs) (oh + inject_Z (nh - 1) * gs)
       + inject_Z p * gs
       - (Qmin og oh - inject_Z p * gs)) / gs) + 1
   = n + 2 * (m + p))%Z.
Proof.
  enough (Qfloor
     ((Qmax (og + inject_Z (n - 1) * gs) (oh + inject_Z (nh - 1) * gs)
       + inject_Z p * gs
       - (Qmin og oh - inject_Z p * gs)) / gs)
     = (n - 1 + 2 * (m + p))%Z) by lia.
  apply Qfloor_inject. rewrite axis_max, axis_min.
  replace (n - 1 + 2 * (m + p))%Z with ((n - 1) + ((m + m) + (p + p)))%Z
    by lia.
  rewrite !inject_Z_plus. unfold gs. field.
Qed.

Lemma axis_shift :
  Py.round ((og - (Qmin og oh - inject_Z p * gs)) / gs) = (m + p)%Z.
Proof.
  apply round_inject. rewrite axis_min, inject_Z_plus. unfold gs. field.
Qed.

End Axis.

Lemma value_or_zero_blank (o : point) (h : Grid) (c : idx) :
  (forall d, cells h d == 0) -> value_or_zero o h c == 0.
Proof.
  intros Hz. unfold value_or_zero.
  destruct (in_bounds h (reindex o h c)); [apply Hz | reflexivity].
Qed.

(** The frame of the super grid of [g] and a grid [h] whose frame is that of
    [g] with a border of [m] cells: that of [g] with a border of [m + p]
    cells. *)
Lemma super_grid_frame (p m : Z) (g h : Grid) :
  (0 <= p)%Z -> (0 <= m)%Z ->
  point_eq (origin h) (map3 (fun x => x - inject_Z m * gs) (origin g)) ->
  nsteps h = map3 (fun n => (n + 2 * m)%Z) (nsteps g) ->
  point_eq (origin (super_grid p g [h]))
    (map3 (fun x => x - inject_Z (m + p) * gs) (origin g)) /\
  nsteps (super_grid p g [h]) = map3 (fun n => (n + 2 * (m + p))%Z) (nsteps g).
Proof.
  intros Hp Hm Ho Hn.
  destruct g as [[[ox oy] oz] [[nx ny] nz] cg].
  destruct h as [[[hx hy] hz] [[mx my] mz] ch].
  cbn [origin nsteps map3 point_eq] in Ho, Hn.
  destruct Ho as (Hx & Hy & Hz). injection Hn as Hnx Hny Hnz.
  cbn [super_grid origin nsteps cells map fold_left far_corner zip3 map3
       point_eq].
  split.
  - repeat split; apply axis_origin; assumption.
  - rewrite (axis_steps p m nx mx ox hx Hm Hx Hnx).
    rewrite (axis_steps p m ny my oy hy Hm Hy Hny).
    rewrite (axis_steps p m nz mz oz hz Hm Hz Hnz).
    reflexivity.
Qed.

(** When [h] is blank, the super grid is [g] with that border. *)
Lemma super_grid_pair (p m : Z) (g h : Grid) :
  (0 <= p)%Z -> (0 <= m)%Z ->
  point_eq (origin h) (map3 (fun x => x - inject_Z m * gs) (origin g)) ->
  nsteps h = map3 (fun n => (n + 2 * m)%Z) (nsteps g) ->
  (forall d, cells h d == 0) ->
  enlarged g (super_grid p g [h]) (m + p).
Proof.
  intros Hp Hm Ho Hn Hz.
  destruct (super_grid_frame p m g h Hp Hm Ho Hn) as [Hfo Hfn].
  split; [exact Hfo|]. split; [exact Hfn|]. clear Hfo Hfn.
  assert (Hv := fun o c => value_or_zero_blank o h c Hz).
  clear Hz.
  destruct g as [[[ox oy] oz] [[nx ny] nz] cg].
  destruct h as [[[hx hy] hz] [[mx my] mz] ch].
  cbn [origin nsteps map3 point_eq] in Ho, Hn.
  destruct Ho as (Hx & Hy & Hz).
  intros [[ci cj] ck].
  cbn [super_grid origin nsteps cells map fold_left far_corner zip3 map3].
  cbn [Qsum fold_right]. rewrite Hv.
  unfold value_or_zero, reindex.
  cbn [origin zip3 shift3 map3].
  rewrite (axis_shift p m ox hx Hm Hx).
  rewrite (axis_shift p m oy hy Hm Hy).
  rewrite (axis_shift p m oz hz Hm Hz).
  cbn [cells]. destruct (in_bounds _ _); ring.
Qed.

Lemma copy_and_clear_blank (g : Grid) (c : idx) :
  cells (_copy_and_clear g) c == 0.
Proof. cbn. ring. Qed.

Lemma point_eq_pad (a b : point) (k : Z) :
  point_eq a b ->
  point_eq (map3 (fun x => x - inject_Z k * gs) a)
           (map3 (fun x => x - inject_Z k * gs) b).
Proof.
  destruct a as [[ax ay] az], b as [[bx b_y] bz]. cbn.
  intros (Hx & Hy & Hz). rewrite Hx, Hy, Hz. repeat split; reflexivity.
Qed.

Lemma point_eq_trans (a b c : point) :
  point_eq a b -> point_eq b c -> point_eq a c.
Proof.
  destruct a as [[ax ay] az], b as [[bx b_y] bz], c as [[cx cy] cz]. cbn.
  intros (Hx & Hy & Hz) (Hx' & Hy' & Hz').
  rewrite Hx, Hy, Hz. auto.
Qed.

Lemma point_eq_sym (a b : point) : point_eq a b -> point_eq b a.
Proof.
  destruct a as [[ax ay] az], b as [[bx b_y] bz]. cbn.
  intros (Hx & Hy & Hz). rewrite Hx, Hy, Hz. repeat split; reflexivity.
Qed.

Lemma point_eq_pad0 (a : point) :
  point_eq a (map3 (fun x => x - inject_Z 0 * gs) a).
Proof.
  destruct a as [[ax ay] az]. cbn. repeat split; ring.
Qed.

Lemma steps_pad0 (n : idx) : n = map3 (fun i => (i + 2 * 0)%Z) n.
Proof.
  destruct n as [[nx ny] nz]. cbn. f_equal; [f_equal|]; lia.
Qed.

(** Both grids of [_common_grid], relative to the first argument. *)
Lemma common_grid_fst (g1 g2 : Grid) (p : Z) :
  (0 <= p)%Z -> same_frame g1 g2 ->
  enlarged g1 (fst (_common_grid g1 g2 p)) (p + p).
Proof.
  intros Hp [Ho Hn]. unfold _common_grid. cbn [fst].
  destruct (super_grid_frame p 0 g1 g2 Hp (Z.le_refl 0)) as [Hso Hsn].
  - eapply point_eq_trans; [apply point_eq_sym; exact Ho|].
    apply point_eq_pad0.
  - rewrite <- Hn. apply steps_pad0.
  - apply super_grid_pair; try assumption.
    apply copy_and_clear_blank.
Qed.

Lemma common_grid_snd (g1 g2 : Grid) (p : Z) :
  (0 <= p)%Z -> same_frame g1 g2 ->
  enlarged g2 (snd (_common_grid g1 g2 p)) (p + p).
Proof.
  intros Hp [Ho Hn]. unfold _common_grid. cbn [snd].
  destruct (super_grid_frame p 0 g1 g2 Hp (Z.le_refl 0)) as [Hso Hsn].
  - eapply point_eq_trans; [apply point_eq_sym; exact Ho|].
    apply point_eq_pad0.
  - rewrite <- Hn. apply steps_pad0.
  - apply super_grid_pair; try assumption.
    + eapply point_eq_trans; [exact Hso|]. apply point_eq_pad. exact Ho.
    + cbn [_copy_and_clear gmul_scalar scalar nsteps]. rewrite Hsn, Hn.
      reflexivity.
    + apply copy_and_clear_blank.
Qed.

Lemma enlarged_by_zero (g out : Grid) : enlarged g out 0 -> grid_eq out g.
Proof.
  intros (Ho & Hn & Hc). split; [split|].
  - eapply point_eq_trans; [exact Ho|]. apply point_eq_sym, point_eq_pad0.
  - rewrite Hn. symmetry. apply steps_pad0.
  - intros c Hb. rewrite (Hc c).
    assert (shift3 c 0 = c) as ->.
    { destruct c as [[i j] k]. cbn. f_equal; [f_equal|]; lia. }
    rewrite Hb. reflexivity.
Qed.

(** C8, as the code has it: for two grids on the same frame, the grids that
    [_common_grid] returns are the originals with a border of twice
    [padding] zero-valued cells on every side: the origin moves down by
    [2 * padding] cells, every step count grows by [4 * padding], the
    original values sit on the original cells and the border holds zeros.
    With [padding = 0] they are equal to the originals. *)
Theorem common_grid_adds_border_of_twice_padding
  (g1 g2 : Grid) (padding : Z) :
  (0 <= padding)%Z -> same_frame g1 g2 ->
  enlarged g1 (fst (_common_grid g1 g2 padding)) (2 * padding) /\
  enlarged g2 (snd (_common_grid g1 g2 padding)) (2 * padding) /\
  grid_eq (fst (_common_grid g1 g2 0)) g1 /\
  grid_eq (snd (_common_grid g1 g2 0)) g2.
Proof.
  intros Hp Hf.
  replace (2 * padding)%Z with (padding + padding)%Z by lia.
  split; [exact (common_grid_fst g1 g2 padding Hp Hf)|].
  split; [exact (common_grid_snd g1 g2 padding Hp Hf)|].
  split; apply enlarged_by_zero.
  - exact (common_grid_fst g1 g2 0 (Z.le_refl 0) Hf).
  - exact (common_grid_snd g1 g2 0 (Z.le_refl 0) Hf).
Qed.

Lemma cube2_same_frame : same_frame Inputs.cube2 Inputs.cube2.
Proof. split; [cbn; repeat split; reflexivity | reflexivity]. Defined.

Lemma common_grid_adds_border_of_twice_padding_witness :
  enlarged Inputs.cube2
    (fst (_common_grid Inputs.cube2 Inputs.cube2 default_padding))
    (2 * default_padding) /\
  enlarged Inputs.cube2
    (snd (_common_grid Inputs.cube2 Inputs.cube2 default_padding))
    (2 * default_padding) /\
  grid_eq (fst (_common_grid Inputs.cube2 Inputs.cube2 0)) Inputs.cube2 /\
  grid_eq (snd (_common_grid Inputs.cube2 Inputs.cube2 0)) Inputs.cube2.
Proof.
  apply (common_grid_adds_border_of_twice_padding Inputs.cube2 Inputs.cube2
           default_padding).
  - unfold default_padding. lia.
  - exact cube2_same_frame.
Defined.

(** C8, as stated, fails with the default padding: two copies of a 2x2x2
    grid come back as 6x6x6 grids whose origin has moved by one length unit
    along every axis. *)
Lemma common_grid_default_padding_changes_frame :
  same_frame Inputs.cube2 Inputs.cube2 /\
  nsteps Inputs.cube2 = (2, 2, 2)%Z /\
  nsteps (fst (_common_grid Inputs.cube2 Inputs.cube2 default_padding))
  = (6, 6, 6)%Z /\
  nsteps (snd (_common_grid Inputs.cube2 Inputs.cube2 default_padding))
  = (6, 6, 6)%Z /\
  point_eq
    (origin (fst (_common_grid Inputs.cube2 Inputs.cube2 default_padding)))
    (- (1), - (1), - (1)) /\
  ~ grid_eq (fst (_common_grid Inputs.cube2 Inputs.cube2 default_padding))
      Inputs.cube2.
Proof.
  split; [exact cube2_same_frame|].
  split; [reflexivity|].
  split; [vm_compute; reflexivity|].
  split; [vm_compute; reflexivity|].
  split; [vm_compute; repeat split; reflexivity|].
  intros [[_ Hn] _]. vm_compute in Hn. discriminate.
Qed.

(** ** [_GhecomResult.update_grid]: one line of the output *)

Lemma inject_Z_sub (a b : Z) : inject_Z (a - b) == inject_Z a - inject_Z b.
Proof.
  unfold Z.sub, Qminus. rewrite inject_Z_plus, inject_Z_opp. reflexivity.
Qed.

(** Rounding moves a number by half a unit at most. *)
Lemma round_within_half (q : Q) :
  - (1 # 2) <= q - inject_Z (Py.round q) /\
  q - inject_Z (Py.round q) <= 1 # 2.
Proof.
  unfold Py.round. destruct (Qle_bool 0 q).
  - pose proof (Qfloor_le (q + (1 # 2))) as Hlo.
    pose proof (Qlt_floor (q + (1 # 2))) as Hhi.
    rewrite inject_Z_plus in Hhi. change (inject_Z 1) with 1 in Hhi.
    split; Lqa.lra.
  - pose proof (Qle_ceiling (q - (1 # 2))) as Hhi.
    pose proof (Qceiling_lt (q - (1 # 2))) as Hlo.
    rewrite inject_Z_sub in Hlo. change (inject_Z 1) with 1 in Hlo.
    split; Lqa.lra.
Qed.

(** Along one axis, on a lattice whose origin is a whole number of steps:
    the index that [_point_to_indices] computes has its point within a
    quarter of the coordinate, and no index has its point nearer. *)
Lemma axis_nearest (o x : Q) (a i' : Z) :
  o == inject_Z a * gs ->
  (x - (o + inject_Z (Py.round (x / gs) - Py.round (o / gs)) * gs))
  * (x - (o + inject_Z (Py.round (x / gs) - Py.round (o / gs)) * gs))
  <= (x - (o + inject_Z i' * gs)) * (x - (o + inject_Z i' * gs)).
Proof.
  intros Ho.
  rewrite (round_inject (o / gs) a) by (rewrite Ho; unfold gs; field).
  destruct (round_within_half (x / gs)) as [Hlo Hhi].
  set (r := Py.round (x / gs)) in *.
  assert (Hx : x / gs == 2 * x) by (unfold gs; field).
  rewrite Hx in Hlo, Hhi.
  rewrite inject_Z_sub, Ho. unfold gs.
  set (m := (i' - (r - a))%Z).
  assert (Hi : inject_Z i' == inject_Z m + inject_Z r - inject_Z a).
  { unfold m. rewrite !inject_Z_sub. ring. }
  rewrite Hi.
  assert (Hm : (m <= -1 \/ m = 0 \/ 1 <= m)%Z) by lia.
  destruct Hm as [Hm|[Hm|Hm]].
  - assert (Hq : inject_Z m <= -1)
      by (change (-1) with (inject_Z (-1)); rewrite <- Zle_Qle; exact Hm).
    Lqa.nra.
  - rewrite Hm. change (inject_Z 0) with 0. Lqa.nra.
  - assert (Hq : 1 <= inject_Z m)
      by (change 1 with (inject_Z 1); rewrite <- Zle_Qle; exact Hm).
    Lqa.nra.
Qed.

(** On a grid whose origin is a whole number of steps of 0.5 along each
    axis, the index that [_point_to_indices] computes is a nearest one. *)
Lemma point_to_indices_nearest (g : Grid) (p : point) (a b c : Z) :
  point_eq (origin g) (inject_Z a * gs, inject_Z b * gs, inject_Z c * gs) ->
  nearest_index g p (_point_to_indices p g).
Proof.
  unfold nearest_index, _point_to_indices, _indices_to_point, sq_distance.
  destruct p as [[px py] pz].
  destruct (origin g) as [[ox oy] oz]. cbn [point_eq].
  intros (Hx & Hy & Hz) i j k.
  pose proof (axis_nearest ox px a i Hx) as H1.
  pose proof (axis_nearest oy py b j Hy) as H2.
  pose proof (axis_nearest oz pz c k Hz) as H3.
  setoid_replace (oz + gs * inject_Z (Py.round (pz / gs) - Py.round (oz / gs)))
    with (oz + inject_Z (Py.round (pz / gs) - Py.round (oz / gs)) * gs)
    by ring.
  setoid_replace (oz + gs * inject_Z k) with (oz + inject_Z k * gs) by ring.
  Lqa.lra.
Qed.

(** C10, as the code has it: for a line that starts with the record marker
    and whose four columns read as numbers, one turn of the loop of
    [update_grid] never fails on an index; it writes 9.5 minus the burial
    metric to the cell [(i, j, k)] that [_point_to_indices] computes for the
    coordinates exactly when [0 < i < nx], [0 < j < ny] and [0 < k < nz],
    and leaves the grid as it is otherwise.  Cells with a zero index are
    inside the grid and skipped.  On a grid whose origin is a whole number
    of steps of 0.5 along each axis, that cell is a cell nearest to the
    coordinates. *)
Theorem update_line_writes_iff_guard
  (py_float : string -> result Q) (g : Grid) (line : string)
  (cx cy cz rinacc : Q) :
  startswith "HETATM" line = true ->
  py_float (slice 31 38 line) = Ok cx ->
  py_float (slice 39 46 line) = Ok cy ->
  py_float (slice 47 54 line) = Ok cz ->
  py_float (slice 61 66 line) = Ok rinacc ->
  update_line py_float g line =
  (let '(i, j, k) := _point_to_indices (cx, cy, cz) g in
   let '(x, y, z) := nsteps g in
   Ok (if ((0 <? i)%Z && (i <? x)%Z) && ((0 <? j)%Z && (j <? y)%Z)
          && ((0 <? k)%Z && (k <? z)%Z)
       then mkGrid (origin g) (nsteps g)
              (fun c => if idx_eqb c (i, j, k) then (19 # 2) - rinacc
                        else cells g c)
       else g))
  /\ (forall a b c : Z,
        point_eq (origin g)
          (inject_Z a * gs, inject_Z b * gs, inject_Z c * gs) ->
        nearest_index g (cx, cy, cz) (_point_to_indices (cx, cy, cz) g)).
Proof.
  intros Hs Hx Hy Hz Hr. split.
  - unfold update_line.
    rewrite Hs, Hx, Hy, Hz, Hr. cbn [bind].
    apply update_cell_spec.
  - intros a b c Ho.
    exact (point_to_indices_nearest g (cx, cy, cz) a b c Ho).
Qed.

Lemma update_line_writes_iff_guard_witness :
  update_line fixed_point_float Inputs.cube2 Inputs.hetatm_inner =
  Ok (mkGrid (0, 0, 0) (2, 2, 2)%Z
        (fun c => if idx_eqb c (1, 1, 1)%Z then (19 # 2) - (200 # 100)
                  else 0))
  /\ nearest_index Inputs.cube2 (500 # 1000, 500 # 1000, 500 # 1000)
       (1, 1, 1)%Z.
Proof.
  destruct (update_line_writes_iff_guard fixed_point_float Inputs.cube2
              Inputs.hetatm_inner (500 # 1000) (500 # 1000) (500 # 1000)
              (200 # 100) eq_refl eq_refl eq_refl eq_refl eq_refl)
    as [Hrun Hnear].
  split; [exact Hrun|].
  apply (Hnear 0%Z 0%Z 0%Z). cbn. repeat split; reflexivity.
Defined.

(** C10, as stated, fails: the cell nearest to an atom on the corner of the
    grid has index [(0, 0, 0)], which lies within the bounds of the grid, and
    the line is skipped. *)
Lemma update_line_skips_cell_in_bounds :
  _point_to_indices (0, 0, 0) Inputs.cube2 = (0, 0, 0)%Z /\
  in_bounds Inputs.cube2 (0, 0, 0)%Z = true /\
  fixed_point_float (slice 31 38 Inputs.hetatm_corner) = Ok (0 # 1000) /\
  fixed_point_float (slice 39 46 Inputs.hetatm_corner) = Ok (0 # 1000) /\
  fixed_point_float (slice 47 54 Inputs.hetatm_corner) = Ok (0 # 1000) /\
  update_line fixed_point_float Inputs.cube2 Inputs.hetatm_corner
  = Ok Inputs.cube2.
Proof. repeat split; vm_compute; reflexivity. Qed.

(** ** [_SuperstarResult.correct_ligsite] *)

Import Superstar.

Lemma Qsum_all_zero (l : list Q) :
  Forall (fun q => q == 0) l -> Qsum l == 0.
Proof.
  induction 1 as [|q l Hq _ IH]; cbn.
  - reflexivity.
  - rewrite Hq, IH. reflexivity.
Qed.

Lemma Qmean_all_zero (l : list Q) :
  Forall (fun q => q == 0) l -> Qmean l == 0.
Proof.
  intros H. unfold Qmean, Qdiv. rewrite (Qsum_all_zero l H). apply Qmult_0_l.
Qed.

Lemma mask_cell (g l : Grid) (c : idx) :
  cells (gand (glt_scalar l 1) (ggt_scalar g 2)) c = truth (masked g l c).
Proof.
  unfold masked. cbn.
  destruct (Qltb (cells l c) 1), (Qltb 2 (cells g c)); reflexivity.
Qed.

(** The value of [correct_ligsite] at a cell, written out. *)
Lemma correct_ligsite_cell (g l : Grid) (c : idx) :
  cells (correct_ligsite g l) c =
  cells l c
  + Qmean (map (fun d => truth (masked g l d)
                         * cells (max_value_of_neighbours l) d)
             (neighbourhood l c)).
Proof.
  unfold correct_ligsite. cbn [gadd pointwise cells].
  f_equal. unfold mean_value_of_neighbours. cbn [cells].
  f_equal. apply map_ext. intros d.
  cbn [gmul pointwise cells]. rewrite mask_cell. reflexivity.
Qed.

(** C2 at the failing input, a row of three cells with burial 0, 4, 4 and
    propensity 3, 0, 0.  The first cell is the only one selected (burial
    below 1, propensity above 2).  Its maximum neighbour is 4, and so is the
    mean of the maximum-smoothed burial over its neighbourhood, yet its
    corrected value is 2; the second cell, which is not selected, goes from
    4 to 16/3. *)
Theorem correct_ligsite_not_a_replacement :
  let g := Inputs.propensity_row in
  let l := Inputs.burial_row in
  masked g l (0, 0, 0)%Z = true /\
  cells (max_value_of_neighbours l) (0, 0, 0)%Z == 4 /\
  Qmean (map (cells (max_value_of_neighbours l)) (neighbourhood l (0, 0, 0)%Z))
  == 4 /\
  cells (correct_ligsite g l) (0, 0, 0)%Z == 2 /\
  masked g l (1, 0, 0)%Z = false /\
  cells l (1, 0, 0)%Z == 4 /\
  cells (correct_ligsite g l) (1, 0, 0)%Z == 16 # 3 /\
  ~ cells (correct_ligsite g l) (1, 0, 0)%Z == cells l (1, 0, 0)%Z.
Proof.
  repeat split; try (vm_compute; reflexivity).
  vm_compute. discriminate.
Qed.

(** ** [_SuperstarResult.__init__] *)

(** The second test of [__init__] repeats the first, so the branch that
    reports a missing ligsite file is never taken: the error can only come
    out of [Grid.from_file] itself. *)
Lemma ligsite_missing_unreachable
  (exists_ : string -> bool) (join : string -> string -> string)
  (from_file : string -> result Grid) (settings : Settings) (msg : exn) :
  (forall path, from_file path <> Raise msg) ->
  msg <> superstar_missing (before_dot (jobname settings)) ->
  __init__ exists_ join from_file settings <> Raise msg.
Proof.
  intros Hf Hm. unfold __init__.
  set (grid_path := join _ (_ ++ ".ins.acnt")%string).
  set (ligsite_path := join _ (_ ++ ".ins.ligsite.acnt")%string).
  destruct (exists_ grid_path).
  - destruct (from_file grid_path) as [grid|e] eqn:Hg; cbn [bind].
    + destruct (from_file ligsite_path) as [l|e] eqn:Hl; cbn [bind].
      * discriminate.
      * intros H. injection H as ->. exact (Hf _ Hl).
    + intros H. injection H as ->. exact (Hf _ Hg).
  - cbn [bind]. intros H. apply Hm. injection H. auto.
Qed.


(** ** [HotspotResults._single_grid] *)

Import Results.

Lemma dict_get_set_same {V} (d : list (string * V)) (k : string) (v : V) :
  dict_get (dict_set d k v) k = Ok v.
Proof.
  induction d as [|[k' v'] d IH]; cbn.
  - rewrite String.eqb_refl. reflexivity.
  - destruct (String.eqb k' k) eqn:E; cbn; rewrite E; auto.
Qed.

Lemma dict_get_set_other {V} (d : list (string * V)) (k k' : string) (v : V) :
  k <> k' -> dict_get (dict_set d k v) k' = dict_get d k'.
Proof.
  intros Hk. induction d as [|[k0 v0] d IH]; cbn.
  - destruct (String.eqb_spec k k'); [contradiction | reflexivity].
  - destruct (String.eqb_spec k0 k) as [->|Hne]; cbn.
    + destruct (String.eqb_spec k k'); [contradiction | reflexivity].
    + destruct (String.eqb_spec k0 k'); [reflexivity | exact IH].
Qed.

(** Loops that fill a dictionary: when every turn that succeeds stores some
    value with property [P] under the key of its item, the dictionary at the
    end of the loop has an entry for every item and all its entries have
    [P]. *)
Lemma for_each_dict_inv {A V} (key : A -> string)
  (body : list (string * V) -> A -> result (list (string * V)))
  (P : string -> V -> Prop) (items : list A) :
  (forall d it d', In it items -> body d it = Ok d' ->
     exists v, d' = dict_set d (key it) v /\ P (key it) v) ->
  forall acc acc', for_each body items acc = Ok acc' ->
  (forall k v, dict_get acc k = Ok v -> P k v) ->
  (forall k v, dict_get acc' k = Ok v -> P k v) /\
  (forall it, In it items -> exists v, dict_get acc' (key it) = Ok v) /\
  (forall k v, dict_get acc k = Ok v -> exists v', dict_get acc' k = Ok v').
Proof.
  induction items as [|it items IH]; intros Hbody acc acc' Hrun Hacc.
  - cbn in Hrun. injection Hrun as <-. repeat split; eauto. intros _ [].
  - cbn in Hrun. destruct (body acc it) as [d1|e] eqn:Hb; [|discriminate].
    cbn in Hrun.
    destruct (Hbody acc it d1 (or_introl eq_refl) Hb) as [v [-> Hv]].
    assert (Hacc1 : forall k w, dict_get (dict_set acc (key it) v) k = Ok w ->
                                P k w).
    { intros k w Hk. destruct (string_dec (key it) k) as [<-|Hne].
      - rewrite dict_get_set_same in Hk. injection Hk as <-. exact Hv.
      - rewrite dict_get_set_other in Hk by exact Hne. eauto. }
    destruct (IH (fun d i d' Hi => Hbody d i d' (or_intror Hi)) _ _ Hrun Hacc1)
      as [HP [Hin Hkeep]].
    repeat split.
    + exact HP.
    + intros i [<-|Hi]; [|auto].
      apply (Hkeep _ v). apply dict_get_set_same.
    + intros k w Hk. destruct (string_dec (key it) k) as [<-|Hne].
      * apply (Hkeep _ v). apply dict_get_set_same.
      * apply (Hkeep k w). rewrite dict_get_set_other by exact Hne. exact Hk.
Qed.

Lemma for_each_ok {A S} (body : S -> A -> result S) (items : list A) :
  (forall st it, In it items -> exists st', body st it = Ok st') ->
  forall st, exists st', for_each body items st = Ok st'.
Proof.
  induction items as [|it items IH]; intros Hbody st; cbn.
  - eauto.
  - destruct (Hbody st it (or_introl eq_refl)) as [st1 ->]. cbn.
    apply IH. intros s i Hi. apply Hbody. right. exact Hi.
Qed.

(** The outer loop of [_single_grid] does the same work at every turn. *)
Lemma repeated_turns {A S} (work : result S) (items : list A)
  (st : option S) :
  for_each (fun (_ : option S) (_ : A) => m <- work ;; Ok (Some m)) items st
  = match items with
    | [] => Ok st
    | _ :: _ => m <- work ;; Ok (Some m)
    end.
Proof.
  revert st. induction items as [|it items IH]; intros st; [reflexivity|].
  cbn [for_each]. destruct work as [m|e]; cbn [bind]; [|reflexivity].
  rewrite IH. destruct items; reflexivity.
Qed.

Lemma single_grid_unfold (sg : channels) :
  _single_grid sg =
  match sg with
  | [] => Raise UnboundLocalError
  | _ :: _ => for_each (mask_channel sg) sg []
  end.
Proof.
  unfold _single_grid. rewrite repeated_turns.
  destruct sg as [|it rest]; [reflexivity|].
  destruct (for_each _ _ _); reflexivity.
Qed.

Lemma filter_key_absent (sg : channels) (p : string) :
  ~ In p (map fst sg) ->
  filter (fun kv => String.eqb (fst kv) p) sg = [].
Proof.
  induction sg as [|[k g] sg IH]; intros Hp; [reflexivity|].
  cbn in *. destruct (String.eqb_spec k p) as [->|_].
  - exfalso. apply Hp. left. reflexivity.
  - apply IH. intros H. apply Hp. right. exact H.
Qed.

Lemma filter_key_nodup (sg : channels) (p : string) :
  NoDup (map fst sg) ->
  (List.length (filter (fun kv => String.eqb (fst kv) p) sg) <= 1)%nat.
Proof.
  induction sg as [|[k g] sg IH]; intros Hnd; cbn; [lia|].
  cbn in Hnd. inversion Hnd as [|? ? Hk Hnd']; subst.
  destruct (String.eqb_spec k p) as [->|_].
  - rewrite filter_key_absent by exact Hk. cbn. lia.
  - apply IH. exact Hnd'.
Qed.

Lemma filter_split_length {A} (f : A -> bool) (l : list A) :
  (List.length (filter f l) + List.length (filter (fun x => negb (f x)) l)
   = List.length l)%nat.
Proof.
  induction l as [|a l IH]; cbn; [reflexivity|].
  destruct (f a); cbn; lia.
Qed.

(** With distinct keys, all channels but one are other channels. *)
Lemma other_grids_length (sg : channels) (p : string) :
  NoDup (map fst sg) ->
  (List.length sg - 1 <= List.length (other_grids sg p))%nat.
Proof.
  intros Hnd. unfold other_grids. rewrite length_map.
  pose proof (filter_key_nodup sg p Hnd) as Hone.
  pose proof (filter_split_length (fun kv : string * Grid =>
                                     String.eqb (fst kv) p) sg) as Hsplit.
  cbv beta in Hsplit. lia.
Qed.

Lemma mask_channel_two_others (sg acc : channels) (p : string) (g : Grid)
  (o0 o1 : Grid) (rest : list Grid) :
  other_grids sg p = o0 :: o1 :: rest ->
  mask_channel sg acc (p, g) = Ok (dict_set acc p (single_owner g o0 o1)).
Proof. intros H. unfold mask_channel. rewrite H. reflexivity. Qed.

Lemma mask_channel_inv (sg acc acc' : channels) (p : string) (g : Grid) :
  mask_channel sg acc (p, g) = Ok acc' ->
  exists o0 o1 rest,
    other_grids sg p = o0 :: o1 :: rest /\
    acc' = dict_set acc p (single_owner g o0 o1).
Proof.
  unfold mask_channel.
  destruct (other_grids sg p) as [|o0 [|o1 rest]]; cbn; try discriminate.
  intros H. injection H as <-. eauto.
Qed.

Lemma Qltb_lt (a b : Q) : Qltb a b = true <-> a < b.
Proof.
  unfold Qltb. rewrite negb_true_iff. split.
  - intros H. apply Qnot_le_lt. intros Hle.
    apply Qle_bool_iff in Hle. congruence.
  - intros H. destruct (Qle_bool b a) eqn:E; [|reflexivity].
    apply Qle_bool_iff in E. exfalso. exact (Qlt_not_le _ _ H E).
Qed.

(** The single-owner grid, cell by cell. *)
Lemma single_owner_cell (g o0 o1 : Grid) (x : idx) :
  cells (single_owner g o0 o1) x ==
  if Qltb (cells o0 x) (cells g x) && Qltb (cells o1 x) (cells g x)
  then cells g x else 0.
Proof.
  unfold single_owner. cbn.
  destruct (Qltb (cells o0 x) (cells g x)),
           (Qltb (cells o1 x) (cells g x)); cbn; ring.
Qed.

(** What [_single_grid] returns for a channel, when it returns. *)
Lemma single_grid_entries (sg masked_grids : channels) :
  NoDup (map fst sg) ->
  _single_grid sg = Ok masked_grids ->
  forall p g, In (p, g) sg ->
  exists o0 o1 rest,
    other_grids sg p = o0 :: o1 :: rest /\
    dict_get masked_grids p = Ok (single_owner g o0 o1).
Proof.
  intros Hnd Hrun p g Hin.
  rewrite single_grid_unfold in Hrun.
  destruct sg as [|it0 rest0] eqn:Hsg; [discriminate|]. rewrite <- Hsg in *.
  pose (P := fun (k : string) (mg : Grid) =>
               forall g', In (k, g') sg ->
               exists o0 o1 rest,
                 other_grids sg k = o0 :: o1 :: rest /\
                 mg = single_owner g' o0 o1).
  destruct (@for_each_dict_inv (string * Grid) Grid fst (mask_channel sg) P sg)
    with (acc := @nil (string * Grid)) (acc' := masked_grids)
    as [HP [Hkeys _]].
  - intros d [k gk] d' Hk Hb.
    destruct (mask_channel_inv _ _ _ _ _ Hb) as [o0 [o1 [rest [Ho ->]]]].
    exists (single_owner gk o0 o1). split; [reflexivity|].
    intros g' Hg'. cbn [fst] in *.
    assert (g' = gk) as ->.
    { clear - Hnd Hk Hg'. induction sg as [|[k1 g1] l IH]; [contradiction|].
      cbn in Hnd. inversion Hnd as [|? ? Hfresh Hnd']; subst.
      destruct Hk as [Hk|Hk], Hg' as [Hg'|Hg'].
      - congruence.
      - injection Hk as -> ->. exfalso. apply Hfresh.
        apply in_map_iff. exists (k, g'). auto.
      - injection Hg' as -> ->. exfalso. apply Hfresh.
        apply in_map_iff. exists (k, gk). auto.
      - auto. }
    exists o0, o1, rest. auto.
  - exact Hrun.
  - intros k v Hk. discriminate.
  - destruct (Hkeys (p, g) Hin) as [mg Hmg]. cbn [fst] in Hmg.
    destruct (HP p mg Hmg g Hin) as [o0 [o1 [rest [Ho ->]]]].
    exists o0, o1, rest. auto.
Qed.

(** With at least three channels [_single_grid] returns. *)
Lemma single_grid_returns (sg : channels) :
  NoDup (map fst sg) -> (3 <= List.length sg)%nat ->
  exists masked_grids, _single_grid sg = Ok masked_grids.
Proof.
  intros Hnd Hlen. rewrite single_grid_unfold.
  destruct sg as [|it0 rest0] eqn:Hsg; [cbn in Hlen; lia|]. rewrite <- Hsg in *.
  apply for_each_ok. intros st [p g] _.
  pose proof (other_grids_length sg p Hnd) as Hl.
  destruct (other_grids sg p) as [|o0 [|o1 rest]] eqn:Ho;
    cbn in Hl; try lia.
  rewrite (mask_channel_two_others _ _ _ _ _ _ _ Ho). eauto.
Qed.

(** What the mask of [_single_grid] compares: with at least three channels,
    the masked grid of a channel keeps the value of the channel at a cell
    when that value strictly exceeds the values of the first two of the
    other channels, in the order in which the dictionary lists them, and is
    zero at the cell otherwise.  Further channels are not compared: the
    comparisons with them are commented out. *)
Theorem single_grid_compares_first_two_others (sg : channels) :
  NoDup (map fst sg) -> (3 <= List.length sg)%nat ->
  exists masked_grids,
    _single_grid sg = Ok masked_grids /\
    forall p g, In (p, g) sg ->
    exists o0 o1 rest mg,
      other_grids sg p = o0 :: o1 :: rest /\
      dict_get masked_grids p = Ok mg /\
      forall x,
        (cells o0 x < cells g x /\ cells o1 x < cells g x ->
         cells mg x == cells g x) /\
        (~ (cells o0 x < cells g x /\ cells o1 x < cells g x) ->
         cells mg x == 0).
Proof.
  intros Hnd Hlen.
  destruct (single_grid_returns sg Hnd Hlen) as [masked_grids Hrun].
  exists masked_grids. split; [exact Hrun|].
  intros p g Hin.
  destruct (single_grid_entries sg masked_grids Hnd Hrun p g Hin) as [o0 [o1 [rest [Ho Hg]]]].
  exists o0, o1, rest, (single_owner g o0 o1).
  split; [exact Ho|]. split; [exact Hg|].
  intros x. pose proof (single_owner_cell g o0 o1 x) as Hc.
  destruct (Qltb (cells o0 x) (cells g x)) eqn:E0;
    destruct (Qltb (cells o1 x) (cells g x)) eqn:E1; cbn in Hc;
    split; intros H; try exact Hc;
    try (exfalso; apply H; split; apply Qltb_lt; assumption);
    destruct H as [H0 H1]; apply Qltb_lt in H0, H1; congruence.
Qed.

Lemma five_channels_distinct : NoDup (map fst Inputs.five_channels).
Proof.
  cbn. repeat constructor; cbn; intuition discriminate.
Defined.

Lemma single_grid_compares_first_two_others_witness :
  exists masked_grids,
    _single_grid Inputs.five_channels = Ok masked_grids /\
    forall p g, In (p, g) Inputs.five_channels ->
    exists o0 o1 rest mg,
      other_grids Inputs.five_channels p = o0 :: o1 :: rest /\
      dict_get masked_grids p = Ok mg /\
      forall x,
        (cells o0 x < cells g x /\ cells o1 x < cells g x ->
         cells mg x == cells g x) /\
        (~ (cells o0 x < cells g x /\ cells o1 x < cells g x) ->
         cells mg x == 0).
Proof.
  apply (single_grid_compares_first_two_others Inputs.five_channels).
  - exact five_channels_distinct.
  - cbn. lia.
Defined.

(** C3 at the failing input, a result with five channels: at the only cell
    the apolar value 3 does not exceed the positive value 5, yet the masked
    apolar grid keeps it, and the masked positive grid keeps its 5 as well,
    so the cell is described by two maps.  Each channel is compared with the
    first two of the others only. *)
Theorem single_grid_keeps_value_below_another_channel :
  exists masked_grids mg mp,
    _single_grid Inputs.five_channels = Ok masked_grids /\
    dict_get masked_grids "apolar" = Ok mg /\
    dict_get masked_grids "positive" = Ok mp /\
    dict_get Inputs.five_channels "apolar" = Ok (Inputs.cell1 3) /\
    dict_get Inputs.five_channels "positive" = Ok (Inputs.cell1 5) /\
    cells mg (0, 0, 0)%Z == cells (Inputs.cell1 3) (0, 0, 0)%Z /\
    cells mp (0, 0, 0)%Z == cells (Inputs.cell1 5) (0, 0, 0)%Z /\
    ~ cells mg (0, 0, 0)%Z == 0 /\
    ~ cells (Inputs.cell1 5) (0, 0, 0)%Z < cells (Inputs.cell1 3) (0, 0, 0)%Z.
Proof.
  eexists. eexists. eexists.
  split; [vm_compute; reflexivity|].
  split; [vm_compute; reflexivity|].
  split; [vm_compute; reflexivity|].
  repeat split; try (vm_compute; reflexivity); vm_compute; discriminate.
Qed.

(** With one or two channels the second of the other grids is missing. *)
Lemma single_grid_needs_three_channels (sg : channels) :
  (1 <= List.length sg <= 2)%nat ->
  _single_grid sg = Raise IndexError.
Proof.
  intros Hlen. rewrite single_grid_unfold.
  destruct sg as [|[p g] rest] eqn:Hsg; [cbn in Hlen; lia|].
  cbn [for_each]. unfold mask_channel at 1.
  assert (Hl : (List.length (other_grids ((p, g) :: rest) p) <= 1)%nat).
  { unfold other_grids. rewrite length_map. cbn [filter fst].
    rewrite String.eqb_refl. cbn [negb].
    pose proof (filter_split_length
                  (fun kv : string * Grid => String.eqb (fst kv) p) rest)
      as Hsplit.
    cbv beta in Hsplit. cbn [List.length] in Hlen. lia. }
  destruct (other_grids ((p, g) :: rest) p) as [|o0 [|o1 others]];
    cbn in Hl; try lia; reflexivity.
Qed.

(** ** [HotspotResults._get_grid_by_volume] and [best_continuous_volume] *)

Lemma island_by_volume_none (islands : Grid -> Q -> list Grid) (sg : Grid)
  (c : Q) :
  islands sg c = [] -> _island_by_volume islands sg c = None.
Proof. intros H. unfold _island_by_volume. rewrite H. reflexivity. Qed.

(** Without islands in the range of the search, the search result does not
    matter: the cutoff stays in the range and the grid comes back blank. *)
Lemma get_grid_by_volume_no_island
  (islands : Grid -> Q -> list Grid) (fminbound : (Q -> Q) -> Q -> Q -> Q -> Q)
  (sg : Grid) (volume : Q) :
  (let c := fminbound (_count_non_zero islands sg (int (volume / (1 # 8))))
              0 30 (25 # 1000) in 0 <= c /\ c <= 30) ->
  (forall c, 0 <= c /\ c <= 30 -> islands sg c = []) ->
  _get_grid_by_volume islands fminbound sg volume = Ok (gmul_scalar sg 0).
Proof.
  cbv zeta. intros Hc Hno. unfold _get_grid_by_volume.
  set (c := fminbound _ 0 30 (25 # 1000)) in *.
  unfold _count_non_zero_alt.
  rewrite (island_by_volume_none islands sg c (Hno c Hc)).
  cbn [Z.ltb Z.compare].
  destruct (Qle_bool 29 c).
  - rewrite island_by_volume_none; [reflexivity|].
    apply Hno. split; discriminate.
  - rewrite island_by_volume_none; [reflexivity|]. apply Hno, Hc.
Qed.

Lemma common_grid_snd_blank (a b : Grid) (p : Z) :
  (forall d, cells b d == 0) ->
  forall c, cells (snd (_common_grid a b p)) c == 0.
Proof.
  intros Hb c. unfold _common_grid. cbn [snd].
  cbn [super_grid cells map Qsum fold_right].
  rewrite (value_or_zero_blank _ b c Hb).
  rewrite value_or_zero_blank by apply copy_and_clear_blank.
  ring.
Qed.

Lemma single_grid_has_keys (sg masked_grids : channels) :
  _single_grid sg = Ok masked_grids ->
  forall p g, In (p, g) sg -> exists mg, dict_get masked_grids p = Ok mg.
Proof.
  intros Hrun p g Hin. rewrite single_grid_unfold in Hrun.
  destruct sg as [|it0 rest0] eqn:Hsg; [discriminate|]. rewrite <- Hsg in *.
  destruct (@for_each_dict_inv (string * Grid) Grid fst (mask_channel sg)
              (fun _ _ => True) sg)
    with (acc := @nil (string * Grid)) (acc' := masked_grids)
    as [_ [Hkeys _]]; auto.
  - intros d [k gk] d' _ Hb.
    destruct (mask_channel_inv _ _ _ _ _ Hb) as [o0 [o1 [rest [_ ->]]]].
    eauto.
  - apply (Hkeys (p, g) Hin).
Qed.

(** The selection of [best_continuous_volume] under a blank mask. *)
Lemma blank_mask_selects_nothing
  (sg masked_grids : channels) (second_mask : Grid) :
  (forall p g, In (p, g) sg -> exists mg, dict_get masked_grids p = Ok mg) ->
  (forall d, cells second_mask d == 0) ->
  exists processed,
    for_each (fun processed (item : string * Grid) =>
                let '(probe, g) := item in
                mg <- dict_get masked_grids probe ;;
                let '(c_mg, c_second_mask) := _common_grid mg second_mask 0 in
                let out_g := gmul c_mg c_second_mask in
                Ok (dict_set processed probe out_g))
      sg [] = Ok processed /\
    (forall p out, dict_get processed p = Ok out ->
                   forall c, cells out c == 0) /\
    (forall p g, In (p, g) sg -> exists out, dict_get processed p = Ok out).
Proof.
  intros Hkeys Hblank.
  match goal with
  | |- context [for_each ?b sg []] => set (body := b)
  end.
  assert (Hstep : forall d it, In it sg ->
            exists out, body d it = Ok (dict_set d (fst it) out) /\
                        forall c, cells out c == 0).
  { intros d [p g] Hin. destruct (Hkeys p g Hin) as [mg Hmg].
    subst body. cbn beta iota. rewrite Hmg. cbn [bind fst].
    pose proof (common_grid_snd_blank mg second_mask 0 Hblank) as Hz.
    destruct (_common_grid mg second_mask 0) as [c_mg c2]. cbn [snd] in Hz.
    eexists. split; [reflexivity|].
    intros c. cbn. rewrite Hz. ring. }
  destruct (for_each_ok body sg) with (st := @nil (string * Grid))
    as [processed Hrun].
  { intros d it Hin. destruct (Hstep d it Hin) as [out [-> _]]. eauto. }
  exists processed. split; [exact Hrun|].
  destruct (@for_each_dict_inv (string * Grid) Grid fst body
              (fun _ out => forall c, cells out c == 0) sg)
    with (acc := @nil (string * Grid)) (acc' := processed)
    as [HP [Hin _]]; auto.
  - intros d it d' Hi Hb. destruct (Hstep d it Hi) as [out [Hout Hz]].
    rewrite Hout in Hb. injection Hb as <-. eauto.
  - intros k v Hk. discriminate.
  - split; [exact HP|]. intros p g Hpg. apply (Hin (p, g) Hpg).
Qed.

Lemma remaining_returns (sg processed : channels) :
  (forall p g, In (p, g) sg -> exists out, dict_get processed p = Ok out) ->
  exists remaining,
    for_each (fun remaining (item : string * Grid) =>
                let '(probe, g) := item in
                b <- dict_get processed probe ;;
                Ok (dict_set remaining probe (gsub g b)))
      sg [] = Ok remaining.
Proof.
  intros Hkeys. apply for_each_ok.
  intros d [p g] Hin. destruct (Hkeys p g Hin) as [out ->]. cbn. eauto.
Qed.

(** C9: when the composite single-owner grid has no island at any cutoff
    between 0 and 30, whatever cutoff the bounded search settles on in that
    range, [_get_grid_by_volume] returns the composite grid times zero, a
    grid on the frame of the composite whose cells are all zero, and
    [best_continuous_volume] returns, with every channel of its selection
    zero at every cell. *)
Theorem no_island_gives_empty_selection
  (islands : Grid -> Q -> list Grid) (fminbound : (Q -> Q) -> Q -> Q -> Q -> Q)
  (super_grids masked_grids : channels) (volume : Q)
  (pocket_mask : option Grid) (sum_g : Grid) :
  _single_grid super_grids = Ok masked_grids ->
  composite masked_grids pocket_mask = Ok sum_g ->
  (let c := fminbound (_count_non_zero islands sum_g (int (volume / (1 # 8))))
              0 30 (25 # 1000) in 0 <= c /\ c <= 30) ->
  (forall c, 0 <= c /\ c <= 30 -> islands sum_g c = []) ->
  _get_grid_by_volume islands fminbound sum_g volume
  = Ok (gmul_scalar sum_g 0) /\
  same_frame (gmul_scalar sum_g 0) sum_g /\
  (forall c, cells (gmul_scalar sum_g 0) c == 0) /\
  exists selection remaining,
    best_continuous_volume islands fminbound super_grids volume pocket_mask
    = Ok (selection, remaining) /\
    forall p g, In (p, g) super_grids ->
    exists out, dict_get selection p = Ok out /\ forall c, cells out c == 0.
Proof.
  intros Hsingle Hsum Hc Hno.
  pose proof (get_grid_by_volume_no_island islands fminbound sum_g volume
                Hc Hno) as Hvol.
  assert (Hblank : forall c, cells (gmul_scalar sum_g 0) c == 0)
    by (intros c; cbn; ring).
  split; [exact Hvol|]. split.
  { split; [|reflexivity]. cbn. destruct (origin sum_g) as [[x y] z].
    cbn. repeat split; reflexivity. }
  split; [exact Hblank|].
  destruct (blank_mask_selects_nothing super_grids masked_grids
              (gmul_scalar sum_g 0)
              (single_grid_has_keys super_grids masked_grids Hsingle) Hblank)
    as [selection [Hsel [Hzero Hkeys]]].
  destruct (remaining_returns super_grids selection Hkeys)
    as [remaining Hrem].
  exists selection, remaining. split.
  - unfold best_continuous_volume.
    rewrite Hsingle. cbn [bind]. rewrite Hsum. cbn [bind].
    rewrite Hvol. cbn [bind]. cbv zeta in Hsel. rewrite Hsel. cbn [bind].
    rewrite Hrem. reflexivity.
  - intros p g Hin. destruct (Hkeys p g Hin) as [out Hout].
    exists out. split; [exact Hout|]. exact (Hzero p out Hout).
Qed.

Lemma whole_grid_islands_blank (g : Grid) (c : Q) :
  (forall x, cells g x == 0) -> 0 <= c ->
  Inputs.whole_grid_islands g c = [].
Proof.
  intros Hz Hc. unfold Inputs.whole_grid_islands.
  destruct (existsb _ _) eqn:He; [|reflexivity].
  apply existsb_exists in He. destruct He as [x [_ Hx]].
  apply Qltb_lt in Hx. rewrite (Hz x) in Hx.
  exfalso. exact (Qlt_not_le _ _ Hx Hc).
Qed.

Lemma no_island_gives_empty_selection_witness :
  exists masked_grids sum_g,
    _single_grid Inputs.blank_channels = Ok masked_grids /\
    composite masked_grids None = Ok sum_g /\
    _get_grid_by_volume Inputs.whole_grid_islands Inputs.first_probe sum_g 500
    = Ok (gmul_scalar sum_g 0) /\
    same_frame (gmul_scalar sum_g 0) sum_g /\
    (forall c, cells (gmul_scalar sum_g 0) c == 0) /\
    exists selection remaining,
      best_continuous_volume Inputs.whole_grid_islands Inputs.first_probe
        Inputs.blank_channels 500 None
      = Ok (selection, remaining) /\
      forall p g, In (p, g) Inputs.blank_channels ->
      exists out, dict_get selection p = Ok out /\ forall c, cells out c == 0.
Proof.
  eexists. eexists.
  split; [reflexivity|]. split; [reflexivity|].
  eapply (no_island_gives_empty_selection Inputs.whole_grid_islands
            Inputs.first_probe Inputs.blank_channels _ 500 None _).
  - reflexivity.
  - reflexivity.
  - cbv zeta. unfold Inputs.first_probe. split; vm_compute; discriminate.
  - intros c [Hc _]. apply whole_grid_islands_blank; [|exact Hc].
    intros x. vm_compute. reflexivity.
Defined.

(** ** [Hotspots._Sampler] *)

Import Sampler.

Local Open Scope R_scope.

(** *** Random quaternions *)

(** The tuple built from two accepted pairs has norm 1. *)
Lemma make_quaternion_unit (r1 r2 r3 r4 : R) :
  r1 * r1 + r2 * r2 < 1 ->
  0 < r3 * r3 + r4 * r4 ->
  norm2 (make_quaternion r1 r2 r3 r4) = 1.
Proof.
  intros H1 H2. unfold make_quaternion, norm2. cbv beta iota zeta.
  set (s1 := r1 * r1 + r2 * r2) in *.
  set (s2 := r3 * r3 + r4 * r4) in *.
  assert (Hk : sqrt ((1 - s1) / s2) * sqrt ((1 - s1) / s2) = (1 - s1) / s2).
  { apply sqrt_sqrt. apply Rlt_le. apply Rdiv_lt_0_compat; lra. }
  set (k := sqrt ((1 - s1) / s2)) in *.
  replace (s1 + r3 * k * (r3 * k) + r4 * k * (r4 * k))
    with (s1 + s2 * (k * k)) by (unfold s2; ring).
  rewrite Hk. field. lra.
Qed.

Lemma s2_positive (r3 r4 : R) :
  r3 * r3 + r4 * r4 <> 0 -> 0 < r3 * r3 + r4 * r4.
Proof.
  intros H. pose proof (Rle_0_sqr r3) as H3. pose proof (Rle_0_sqr r4) as H4.
  unfold Rsqr in *. lra.
Qed.

(** The loop only ever appends tuples of norm 1, and one per turn of [i]. *)
Lemma rand_loop_inv (nrotations : Z) (k : nat) :
  forall (draws : list R) (i : Z) (acc qs : list quaternion),
  (List.length draws <= k)%nat ->
  rand_loop nrotations draws i acc = Some (Ok qs) ->
  (Forall (fun q => norm2 q = 1) acc -> Forall (fun q => norm2 q = 1) qs) /\
  ((i <= nrotations + 1)%Z ->
   Z.of_nat (List.length qs) =
   (Z.of_nat (List.length acc) + (nrotations + 1 - i))%Z).
Proof.
  induction k as [|k IH]; intros draws i acc qs Hlen Hrun.
  - destruct draws; [|cbn in Hlen; lia]. cbn in Hrun.
    destruct (Z.leb_spec i nrotations); [discriminate|].
    injection Hrun as <-. split; [auto|]. lia.
  - destruct draws as [|r1 [|r2 rest]]; cbn in Hrun;
      destruct (Z.leb_spec i nrotations) as [Hi|Hi]; try discriminate;
      try (injection Hrun as <-; split; [auto|lia]).
    destruct (Rlt_dec (r1 * r1 + r2 * r2) 1) as [H1|H1].
    + destruct rest as [|r3 [|r4 rest']]; try discriminate.
      destruct (Rlt_dec (r3 * r3 + r4 * r4) 1) as [H2|H2].
      * destruct (Req_dec_T (r3 * r3 + r4 * r4) 0) as [H0|H0];
          [discriminate|].
        apply IH in Hrun; [|cbn in Hlen |- *; lia].
        destruct Hrun as [Hu Hl]. split.
        -- intros Hacc. apply Hu. apply Forall_app. split; [exact Hacc|].
           constructor; [|constructor].
           apply make_quaternion_unit; [exact H1|].
           apply s2_positive. exact H0.
        -- intros _. rewrite Hl by lia. rewrite length_app. cbn. lia.
      * apply IH in Hrun; [exact Hrun | cbn in Hlen |- *; lia].
    + apply IH in Hrun; [exact Hrun | cbn in Hlen |- *; lia].
Qed.

(** C6: every quaternion of a list that [generate_rand_quaternions] returns
    has norm 1.  The draws are real numbers here, so the identity is exact;
    a second pair with [r3 * r3 + r4 * r4 = 0] makes the division fail and
    no list is returned. *)
Theorem generated_quaternions_have_unit_norm
  (settings : Settings) (draws : list R) (qs : list quaternion) :
  generate_rand_quaternions settings draws = Some (Ok qs) ->
  Forall (fun q => norm2 q = 1) qs.
Proof.
  unfold generate_rand_quaternions.
  destruct (nrotations settings >? 1)%Z.
  - intros Hrun.
    apply (rand_loop_inv (nrotations settings) (List.length draws) draws 1 []
             qs (le_n _) Hrun).
    constructor.
  - intros H. injection H as <-. constructor.
Qed.

Lemma two_rotations_run :
  generate_rand_quaternions Inputs.two_rotations Inputs.draws
  = Some (Ok [make_quaternion 0 0 (1 / 2) (1 / 2);
              make_quaternion 0 0 (1 / 2) (1 / 2)]).
Proof.
  unfold generate_rand_quaternions, Inputs.two_rotations, Inputs.draws.
  cbn [nrotations Z.gtb Z.compare Pos.compare Pos.compare_cont rand_loop
       Z.leb Z.add Pos.add Pos.succ app].
  repeat (destruct (Rlt_dec _ _); [|exfalso; lra]);
    repeat (destruct (Req_dec_T _ _); [exfalso; lra|]);
    cbn [rand_loop Z.leb Z.compare Pos.compare Pos.compare_cont Z.add Pos.add
         Pos.succ app];
    repeat (destruct (Rlt_dec _ _); [|exfalso; lra]);
    repeat (destruct (Req_dec_T _ _); [exfalso; lra|]);
    reflexivity.
Defined.

Lemma generated_quaternions_have_unit_norm_witness :
  Forall (fun q => norm2 q = 1)
    [make_quaternion 0 0 (1 / 2) (1 / 2);
     make_quaternion 0 0 (1 / 2) (1 / 2)].
Proof.
  exact (generated_quaternions_have_unit_norm Inputs.two_rotations
           Inputs.draws _ two_rotations_run).
Defined.

(** From two rotations on, a list that is returned has the configured
    length. *)
Lemma generated_length (settings : Settings) (draws : list R)
  (qs : list quaternion) :
  (2 <= nrotations settings)%Z ->
  generate_rand_quaternions settings draws = Some (Ok qs) ->
  Z.of_nat (List.length qs) = nrotations settings.
Proof.
  intros Hn. unfold generate_rand_quaternions.
  destruct (Z.gtb_spec (nrotations settings) 1) as [_|H]; [|lia].
  intros Hrun.
  destruct (rand_loop_inv (nrotations settings) (List.length draws) draws 1 []
              qs (le_n _) Hrun) as [_ Hl].
  rewrite Hl by lia. cbn. lia.
Qed.

(** C7 at the failing input: with one rotation configured the guard
    [nrotations > 1] is false, the loop never runs and the list is empty,
    whatever the draws. *)
Theorem one_rotation_gives_no_quaternion (draws : list R) :
  nrotations Inputs.one_rotation = 1%Z /\
  generate_rand_quaternions Inputs.one_rotation draws = Some (Ok []).
Proof. split; reflexivity. Qed.

(** *** Scoring *)

Lemma score_empty : score [] = Raise ZeroDivisionError.
Proof. reflexivity. Qed.

Lemma filter_none {A} (f : A -> bool) (l : list A) :
  (forall a, In a l -> f a = false) -> filter f l = [].
Proof.
  induction l as [|a l IH]; intros H; [reflexivity|].
  cbn. rewrite (H a (or_introl eq_refl)).
  apply IH. intros b Hb. apply H. right. exact Hb.
Qed.

(** C4, as the code has it: [score] divides by the length of the list, so on
    a zero-length list it raises [ZeroDivisionError]; [sample_pose] hands it
    such a list, and the error goes through, when the probe is not a charged
    one and no grid has an active atom. *)
Theorem score_of_no_values_raises
  (grids : list SampleGrid) (trans : coords)
  (active_atoms_dic : string -> list coords) (probe : string) :
  String.eqb probe "negative" = false ->
  String.eqb probe "positive" = false ->
  (forall g, In g grids -> active_atoms_dic (name g) = []) ->
  score [] = Raise ZeroDivisionError /\
  sample_pose grids trans active_atoms_dic probe = Raise ZeroDivisionError.
Proof.
  intros Hneg Hpos Hnone. split; [exact score_empty|].
  unfold sample_pose. rewrite Hneg, Hpos. cbn [orb].
  rewrite filter_none.
  - reflexivity.
  - intros g Hg. rewrite (Hnone g Hg). reflexivity.
Qed.

Lemma score_of_no_values_raises_witness :
  score [] = Raise ZeroDivisionError /\
  sample_pose [Inputs.apolar_grid] (0, 0, 0) (fun _ => []) "donor"
  = Raise ZeroDivisionError.
Proof.
  apply (score_of_no_values_raises [Inputs.apolar_grid] (0, 0, 0)
           (fun _ => []) "donor").
  - reflexivity.
  - reflexivity.
  - intros g _. reflexivity.
Defined.

(** C4, as stated, fails: on the zero-length list [score] does not yield 0,
    it raises. *)
Lemma score_of_no_values_is_not_zero :
  score [] <> Ok 0 /\ is_ok (score []) = false.
Proof. split; [discriminate | reflexivity]. Qed.

(** *** Priority atom *)

Lemma probe_centre : centre_of_geometry Inputs.probe = (0, 0, 0).
Proof.
  unfold centre_of_geometry, Inputs.probe. cbn.
  f_equal; [f_equal|]; lra.
Qed.

Lemma distance_on_axis (x : R) :
  0 <= x -> _get_distance (0, 0, 0) (- x, 0, 0) = x.
Proof.
  intros Hx. unfold _get_distance.
  replace ((0 - - x) ^ 2 + (0 - 0) ^ 2 + (0 - 0) ^ 2) with (x ^ 2) by ring.
  apply sqrt_pow2. exact Hx.
Qed.

Lemma distance_far_donor :
  _get_distance (0, 0, 0) (coordinates Inputs.far_donor) = 3.
Proof.
  unfold _get_distance, Inputs.far_donor, coordinates.
  replace ((0 - 3) ^ 2 + (0 - 0) ^ 2 + (0 - 0) ^ 2) with (3 ^ 2) by ring.
  apply sqrt_pow2. lra.
Qed.

Lemma distance_near_acceptor :
  _get_distance (0, 0, 0) (coordinates Inputs.near_acceptor) = 1.
Proof. apply (distance_on_axis 1). lra. Qed.

Lemma rdict_set_in {V} (d : list (R * V)) (k k' : R) (v v' : V) :
  In (k', v') (rdict_set d k v) -> (k' = k /\ v' = v) \/ In (k', v') d.
Proof.
  induction d as [|[k0 v0] d IH]; cbn.
  - intros [H|[]]. injection H as <- <-. auto.
  - destruct (Req_dec_T k0 k) as [->|Hne]; cbn; intros [H|H].
    + injection H as <- <-. auto.
    + auto.
    + auto.
    + destruct (IH H); auto.
Qed.

Lemma rdict_set_keys {V} (d : list (R * V)) (k k' : R) (v : V) :
  In k' (map fst d) \/ k' = k -> In k' (map fst (rdict_set d k v)).
Proof.
  induction d as [|[k0 v0] d IH]; cbn.
  - intros [ [] | -> ]. auto.
  - destruct (Req_dec_T k0 k) as [->|Hne]; cbn; intros [ [H|H] | H]; auto.
Qed.

Lemma rdict_get_in {V} (d : list (R * V)) (k : R) (v : V) :
  rdict_get d k = Ok v -> In (k, v) d.
Proof.
  induction d as [|[k0 v0] d IH]; cbn; [discriminate|].
  destruct (Req_dec_T k0 k) as [->|Hne].
  - intros H. injection H as <-. auto.
  - auto.
Qed.

Lemma fold_Rmin_le (t : list R) :
  forall k, fold_left Rmin t k <= k /\
            forall x, In x t -> fold_left Rmin t k <= x.
Proof.
  induction t as [|a t IH]; intros k; cbn.
  - split; [lra | intros x []].
  - destruct (IH (Rmin k a)) as [H1 H2].
    pose proof (Rmin_l k a). pose proof (Rmin_r k a).
    split; [lra|]. intros x [<-|Hx]; [lra | auto].
Qed.

(** The dictionary of [get_priority_atom]: its values are the atoms that
    were put in, each under its distance, and every distance is a key. *)
Lemma by_distance_inv (c : coords) (atoms : list Atom) :
  forall (acc : list (R * Atom)) (seen : list Atom),
  (forall k v, In (k, v) acc ->
               In v seen /\ _get_distance c (coordinates v) = k) ->
  (forall b, In b seen ->
             In (_get_distance c (coordinates b)) (map fst acc)) ->
  let d := fold_left
             (fun d a => rdict_set d (_get_distance c (coordinates a)) a)
             atoms acc in
  (forall k v, In (k, v) d ->
               In v (seen ++ atoms) /\ _get_distance c (coordinates v) = k) /\
  (forall b, In b (seen ++ atoms) ->
             In (_get_distance c (coordinates b)) (map fst d)).
Proof.
  induction atoms as [|a atoms IH]; intros acc seen Hv Hk; cbn.
  - rewrite app_nil_r. auto.
  - replace (seen ++ a :: atoms) with ((seen ++ [a]) ++ atoms)
      by (rewrite <- app_assoc; reflexivity).
    apply IH.
    + intros k v Hin. apply rdict_set_in in Hin.
      destruct Hin as [[-> ->]|Hin].
      * split; [apply in_or_app; right; left|]; reflexivity.
      * destruct (Hv k v Hin). split; [apply in_or_app|]; auto.
    + intros b Hb. apply rdict_set_keys. apply in_app_or in Hb.
      destruct Hb as [Hb|[<-|[]]]; auto.
Qed.

(** Whatever the molecule, the atom that [get_priority_atom] returns is one
    of the candidates (the polar atoms if there are any, all atoms
    otherwise) and no candidate is nearer to the centre of geometry. *)
Lemma priority_atom_is_nearest (molecule : Molecule) (a : Atom)
  (t : string) :
  get_priority_atom molecule = Ok (a, t) ->
  let c := centre_of_geometry molecule in
  let candidates :=
    if (0 <? List.length (filter is_polar molecule))%nat
    then filter is_polar molecule else molecule in
  In a candidates /\
  forall b, In b candidates ->
            _get_distance c (coordinates a) <= _get_distance c (coordinates b).
Proof.
  unfold get_priority_atom. cbv zeta.
  set (c := centre_of_geometry molecule).
  set (candidates := if (0 <? List.length (filter is_polar molecule))%nat
                     then filter is_polar molecule else molecule).
  assert (Hd : (if (0 <? List.length (filter is_polar molecule))%nat
                then by_distance c (filter is_polar molecule)
                else by_distance c molecule) = by_distance c candidates)
    by (subst candidates; destruct (0 <? _)%nat; reflexivity).
  rewrite Hd. clear Hd.
  destruct (by_distance_inv c candidates [] [])
    as [Hv Hk]; [intros k v [] | intros b [] |].
  cbn [app] in Hv, Hk. fold (by_distance c candidates) in Hv, Hk.
  destruct (map fst (by_distance c candidates)) as [|k0 keys] eqn:Hkeys;
    [discriminate|].
  cbn [sorted_first bind].
  destruct (rdict_get _ _) as [pa|e] eqn:Hget; [|discriminate].
  cbn [bind]. intros H. injection H as <- _.
  apply rdict_get_in in Hget. destruct (Hv _ _ Hget) as [Hin Hdist].
  split; [exact Hin|]. intros b Hb. rewrite Hdist.
  destruct (fold_Rmin_le keys k0) as [H0 Hrest].
  destruct (Hk b Hb) as [<-|Hb']; [exact H0 | exact (Hrest _ Hb')].
Qed.

(** C1 at the failing input: the probe has two polar atoms, a donor at
    distance 3 from the centre of geometry and an acceptor at distance 1.
    [sorted(keys)[0]] is the smallest distance, so the acceptor, the polar
    atom nearest to the centre, is returned. *)
Theorem priority_atom_is_the_nearest_polar_atom :
  filter is_polar Inputs.probe = [Inputs.far_donor; Inputs.near_acceptor] /\
  _get_distance (centre_of_geometry Inputs.probe)
    (coordinates Inputs.far_donor) = 3 /\
  _get_distance (centre_of_geometry Inputs.probe)
    (coordinates Inputs.near_acceptor) = 1 /\
  get_priority_atom Inputs.probe
  = Ok (Inputs.near_acceptor, "acceptor"%string).
Proof.
  rewrite probe_centre.
  split; [reflexivity|].
  split; [exact distance_far_donor|].
  split; [exact distance_near_acceptor|].
  unfold get_priority_atom. rewrite probe_centre.
  change (filter is_polar Inputs.probe)
    with [Inputs.far_donor; Inputs.near_acceptor].
  cbn [List.length Nat.ltb Nat.leb by_distance fold_left rdict_set].
  rewrite distance_far_donor, distance_near_acceptor.
  destruct (Req_dec_T 3 1) as [H|_]; [exfalso; lra|].
  cbn [map fst sorted_first fold_left bind].
  unfold Rmin. destruct (Rle_dec 3 1) as [H|_]; [exfalso; lra|].
  cbn [rdict_get].
  destruct (Req_dec_T 3 1) as [H|_]; [exfalso; lra|].
  destruct (Req_dec_T 1 1) as [_|H]; [|exfalso; lra].
  reflexivity.
Qed.

(** * Further properties *)

Local Open Scope Q_scope.

(** ** [_HotspotsHelper]: points and indices *)

(** A grid whose origin lies on the lattice of spacing 0.5. *)
Lemma on_lattice_round (o p : Q) (a i : Z) :
  o == inject_Z a * gs ->
  p == o + inject_Z i * gs ->
  (Py.round (p / gs) - Py.round (o / gs))%Z = i.
Proof.
  intros Ho Hp.
  rewrite (round_inject (p / gs) (a + i)).
  - rewrite (round_inject (o / gs) a).
    + lia.
    + rewrite Ho. unfold gs. field.
  - rewrite Hp, Ho, inject_Z_plus. unfold gs. field.
Qed.

(** The point of an index is mapped back to the index, on every grid whose
    origin is a whole number of steps of 0.5 along each axis. *)
Theorem point_of_indices_round_trip (g : Grid) (a b c i j k : Z) :
  point_eq (origin g) (inject_Z a * gs, inject_Z b * gs, inject_Z c * gs) ->
  _point_to_indices (_indices_to_point i j k g) g = (i, j, k).
Proof.
  unfold _point_to_indices, _indices_to_point.
  destruct (origin g) as [[ox oy] oz]. cbn [point_eq].
  intros (Hx & Hy & Hz).
  rewrite (on_lattice_round ox _ a i Hx) by reflexivity.
  rewrite (on_lattice_round oy _ b j Hy) by reflexivity.
  rewrite (on_lattice_round oz _ c k Hz) by ring.
  reflexivity.
Qed.

Lemma point_of_indices_round_trip_witness :
  _point_to_indices (_indices_to_point 1 0 1 Inputs.cube2) Inputs.cube2
  = (1, 0, 1)%Z.
Proof.
  apply (point_of_indices_round_trip Inputs.cube2 0 0 0 1 0 1).
  cbn. repeat split; reflexivity.
Defined.

(** On a grid whose origin is a whole number of steps of 0.5 along each
    axis, [_point_to_indices] returns a nearest index, as its docstring
    says: no index of the lattice, inside the grid or outside, has its point
    nearer to the given point. *)
Theorem point_to_indices_is_nearest_on_lattice (g : Grid) (p : point)
  (a b c : Z) :
  point_eq (origin g) (inject_Z a * gs, inject_Z b * gs, inject_Z c * gs) ->
  nearest_index g p (_point_to_indices p g).
Proof.
  exact (point_to_indices_nearest g p a b c).
Qed.

Lemma point_to_indices_is_nearest_on_lattice_witness :
  nearest_index Inputs.cube2 (3 # 5, 1 # 5, 3 # 10) (1, 0, 1)%Z.
Proof.
  apply (point_to_indices_is_nearest_on_lattice Inputs.cube2
           (3 # 5, 1 # 5, 3 # 10) 0 0 0).
  cbn. repeat split; reflexivity.
Defined.

(** ** [_GhecomResult.update_grid]: the whole loop *)



(** Only the lines that start with the record marker count: the other lines
    of the file can be dropped without changing the outcome. *)
Theorem update_grid_reads_marked_lines_only
  (py_float : string -> result Q) (lines : list string) (g : Grid) :
  update_grid py_float g lines
  = update_grid py_float g (filter (startswith "HETATM") lines).
Proof.
  unfold update_grid. revert g.
  induction lines as [|line lines IH]; intros g; [reflexivity|].
  cbn [filter]. destruct (startswith "HETATM" line) eqn:Hs.
  - cbn [for_each]. destruct (update_line py_float g line); cbn [bind];
      [apply IH | reflexivity].
  - cbn [for_each]. unfold update_line at 1. rewrite Hs. cbn [bind].
    apply IH.
Qed.

(** ** [_SuperstarResult]: further properties *)

Lemma Qsum_nonneg (l : list Q) :
  Forall (fun q => 0 <= q) l -> 0 <= Qsum l.
Proof.
  induction 1 as [|q l Hq _ IH]; cbn.
  - apply Qle_refl.
  - apply (Qle_trans _ (0 + 0)); [discriminate|].
    apply Qplus_le_compat; assumption.
Qed.

Lemma Qmean_nonneg (l : list Q) :
  Forall (fun q => 0 <= q) l -> 0 <= Qmean l.
Proof.
  intros H. unfold Qmean.
  destruct l as [|q l']; [cbn; discriminate|].
  apply Qle_shift_div_l.
  - change 0 with (inject_Z 0). rewrite <- Zlt_Qlt. cbn. lia.
  - rewrite Qmult_0_l. apply Qsum_nonneg. exact H.
Qed.

Lemma fold_Qmax_ge (t : list Q) (x : Q) : x <= fold_left Qmax t x.
Proof.
  revert x. induction t as [|a t IH]; intros x; cbn.
  - apply Qle_refl.
  - eapply Qle_trans; [apply (Q.le_max_l x a) | apply IH].
Qed.

Lemma Qmaximum_nonneg (l : list Q) :
  Forall (fun q => 0 <= q) l -> 0 <= Qmaximum l.
Proof.
  intros H. destruct l as [|x t]; cbn.
  - apply Qle_refl.
  - inversion H; subst. eapply Qle_trans; [eassumption | apply fold_Qmax_ge].
Qed.

(** On a burial grid without negative values the correction only adds: no
    cell of the corrected grid is below the burial value it started from. *)
Theorem correct_ligsite_never_lowers (g l : Grid) :
  (forall c, in_bounds l c = true -> 0 <= cells l c) ->
  forall c, cells l c <= cells (correct_ligsite g l) c.
Proof.
  intros Hl c. rewrite correct_ligsite_cell.
  rewrite <- (Qplus_0_r (cells l c)) at 1.
  apply Qplus_le_r. apply Qmean_nonneg.
  apply Forall_forall. intros q Hq. apply in_map_iff in Hq.
  destruct Hq as [d [<- _]].
  apply Qmult_le_0_compat.
  - destruct (masked g l d); discriminate.
  - cbn [max_value_of_neighbours cells]. apply Qmaximum_nonneg.
    apply Forall_forall. intros v Hv. apply in_map_iff in Hv.
    destruct Hv as [e [<- He]]. apply Hl.
    unfold neighbours, neighbourhood in He.
    apply filter_In in He. destruct He as [He _].
    apply filter_In in He. apply He.
Qed.

Lemma correct_ligsite_never_lowers_witness :
  cells Inputs.burial_row (1, 0, 0)%Z
  <= cells (correct_ligsite Inputs.propensity_row Inputs.burial_row)
       (1, 0, 0)%Z.
Proof.
  apply (correct_ligsite_never_lowers Inputs.propensity_row
           Inputs.burial_row).
  intros [[i j] k] _. cbn. destruct (i =? 0)%Z; discriminate.
Defined.

(** Away from the selected cells nothing changes: a cell keeps its burial
    value when no cell of its 3x3x3 neighbourhood has burial below 1 and
    propensity above 2. *)
Theorem correct_ligsite_unchanged_off_mask (g l : Grid) (c : idx) :
  existsb (masked g l) (neighbourhood l c) = false ->
  cells (correct_ligsite g l) c == cells l c.
Proof.
  intros He. rewrite correct_ligsite_cell.
  rewrite Qmean_all_zero.
  - apply Qplus_0_r.
  - apply Forall_forall. intros q Hq. apply in_map_iff in Hq.
    destruct Hq as [d [<- Hd]].
    assert (Hm : masked g l d = false).
    { destruct (masked g l d) eqn:Hm; [|reflexivity].
      assert (existsb (masked g l) (neighbourhood l c) = true)
        by (apply existsb_exists; eauto).
      congruence. }
    rewrite Hm. apply Qmult_0_l.
Qed.

Lemma correct_ligsite_unchanged_off_mask_witness :
  cells (correct_ligsite Inputs.propensity_row Inputs.burial_row) (2, 0, 0)%Z
  == cells Inputs.burial_row (2, 0, 0)%Z.
Proof.
  apply (correct_ligsite_unchanged_off_mask Inputs.propensity_row
           Inputs.burial_row (2, 0, 0)%Z).
  reflexivity.
Defined.

(** ** [HotspotResults._single_grid]: one, two and three channels *)

Lemma single_grid_needs_three_channels_witness :
  _single_grid [("apolar"%string, Inputs.cell1 3);
                ("donor"%string, Inputs.cell1 0)]
  = Raise IndexError.
Proof.
  apply (single_grid_needs_three_channels
           [("apolar"%string, Inputs.cell1 3);
            ("donor"%string, Inputs.cell1 0)]).
  cbn. lia.
Defined.

Lemma other_grids_in (sg : channels) (p : string) (h : Grid) :
  In h (other_grids sg p) <-> exists q, In (q, h) sg /\ q <> p.
Proof.
  unfold other_grids. rewrite in_map_iff. split.
  - intros [[q h'] [Hh Hin]]. cbn in Hh. subst h'.
    apply filter_In in Hin. destruct Hin as [Hin Hq]. cbn in Hq.
    exists q. split; [exact Hin|].
    destruct (String.eqb_spec q p); [discriminate | assumption].
  - intros [q [Hin Hq]]. exists (q, h). split; [reflexivity|].
    apply filter_In. split; [exact Hin|]. cbn.
    destruct (String.eqb_spec q p); [contradiction | reflexivity].
Qed.

(** With three channels the other grids of a channel are the two others. *)
Lemma other_grids_of_three (sg : channels) (p : string) (g : Grid) :
  NoDup (map fst sg) -> List.length sg = 3%nat -> In (p, g) sg ->
  exists o0 o1, other_grids sg p = [o0; o1].
Proof.
  intros Hnd Hlen Hin.
  pose proof (other_grids_length sg p Hnd) as Hge.
  assert (Hle : (List.length (other_grids sg p) < List.length sg)%nat).
  { unfold other_grids. rewrite length_map.
    pose proof (filter_split_length
                  (fun kv : string * Grid => String.eqb (fst kv) p) sg)
      as Hsplit.
    cbv beta in Hsplit.
    assert (Hone : In (p, g) (filter (fun kv : string * Grid =>
                                        String.eqb (fst kv) p) sg)).
    { apply filter_In. split; [exact Hin|]. cbn. apply String.eqb_refl. }
    destruct (filter (fun kv : string * Grid => String.eqb (fst kv) p) sg);
      [contradiction|].
    cbn [List.length] in Hsplit. lia. }
  rewrite Hlen in Hge, Hle.
  destruct (other_grids sg p) as [|o0 [|o1 [|o2 rest]]];
    cbn [List.length] in Hge, Hle; try lia.
  eauto.
Qed.

(** The masked grid of a channel, with three channels: the value where the
    channel is strictly above both others, zero where one of them is not
    below it. *)
Lemma single_grid_three_entry (sg masked_grids : channels) (p : string)
  (g : Grid) :
  NoDup (map fst sg) -> List.length sg = 3%nat ->
  _single_grid sg = Ok masked_grids -> In (p, g) sg ->
  exists mg,
    dict_get masked_grids p = Ok mg /\
    forall x,
      ((forall q h, In (q, h) sg -> q <> p -> cells h x < cells g x) ->
       cells mg x == cells g x) /\
      (forall q h, In (q, h) sg -> q <> p -> ~ cells h x < cells g x ->
                   cells mg x == 0).
Proof.
  intros Hnd Hlen Hrun Hin.
  destruct (single_grid_entries sg masked_grids Hnd Hrun p g Hin)
    as [o0 [o1 [rest [Ho Hg]]]].
  destruct (other_grids_of_three sg p g Hnd Hlen Hin) as [a [b Hab]].
  rewrite Hab in Ho. injection Ho as <- <- <-.
  exists (single_owner g a b). split; [exact Hg|].
  intros x. pose proof (single_owner_cell g a b x) as Hc.
  assert (Ha : In a (other_grids sg p)) by (rewrite Hab; cbn; auto).
  assert (Hb : In b (other_grids sg p)) by (rewrite Hab; cbn; auto).
  apply other_grids_in in Ha, Hb.
  destruct Ha as [qa [Hqa Hna]], Hb as [qb [Hqb Hnb]].
  split.
  - intros Hall.
    pose proof (Hall qa a Hqa Hna) as H0. pose proof (Hall qb b Hqb Hnb) as H1.
    apply Qltb_lt in H0, H1. rewrite H0, H1 in Hc. exact Hc.
  - intros q h Hqh Hq Hnot.
    assert (Hh : In h (other_grids sg p))
      by (apply other_grids_in; eauto).
    rewrite Hab in Hh.
    assert (Hf : Qltb (cells h x) (cells g x) = false).
    { destruct (Qltb (cells h x) (cells g x)) eqn:E; [|reflexivity].
      apply Qltb_lt in E. contradiction. }
    destruct Hh as [<-|[<-|[]]]; rewrite Hf in Hc.
    + exact Hc.
    + rewrite andb_false_r in Hc. exact Hc.
Qed.

(** With exactly three channels, the usual set, [_single_grid] is a
    winner-take-all: the masked grid of a channel keeps the value of the
    channel at a cell when it is strictly above every other channel there,
    and is zero at the cell as soon as another channel is not below it. *)
Theorem single_grid_three_channels_winner_takes_all (sg : channels) :
  NoDup (map fst sg) -> List.length sg = 3%nat ->
  exists masked_grids,
    _single_grid sg = Ok masked_grids /\
    forall p g, In (p, g) sg ->
    exists mg,
      dict_get masked_grids p = Ok mg /\
      forall x,
        ((forall q h, In (q, h) sg -> q <> p -> cells h x < cells g x) ->
         cells mg x == cells g x) /\
        (forall q h, In (q, h) sg -> q <> p -> ~ cells h x < cells g x ->
                     cells mg x == 0).
Proof.
  intros Hnd Hlen.
  destruct (single_grid_returns sg Hnd) as [masked_grids Hrun];
    [rewrite Hlen; lia|].
  exists masked_grids. split; [exact Hrun|].
  intros p g Hin.
  exact (single_grid_three_entry sg masked_grids p g Hnd Hlen Hrun Hin).
Qed.

Lemma three_channels_distinct : NoDup (map fst Inputs.three_channels).
Proof. cbn. repeat constructor; cbn; intuition discriminate. Defined.

Lemma single_grid_three_channels_winner_takes_all_witness :
  exists masked_grids mg,
    _single_grid Inputs.three_channels = Ok masked_grids /\
    dict_get masked_grids "apolar" = Ok mg /\
    cells mg (0, 0, 0)%Z == 3 /\
    cells mg (1, 0, 0)%Z == 0.
Proof.
  destruct (single_grid_three_channels_winner_takes_all Inputs.three_channels
              three_channels_distinct eq_refl)
    as [masked_grids [Hrun Hall]].
  destruct (Hall "apolar"%string (Inputs.row2 3 1)) as [mg [Hget Hcells]];
    [cbn; auto|].
  exists masked_grids, mg.
  split; [exact Hrun|]. split; [exact Hget|]. split.
  - apply (proj1 (Hcells (0, 0, 0)%Z)).
    intros q h Hin Hq. cbn in Hin.
    destruct Hin as [E|[E|[E|[]]]]; injection E as <- <-;
      [congruence | reflexivity | reflexivity].
  - apply (proj2 (Hcells (1, 0, 0)%Z) "donor"%string (Inputs.row2 1 3));
      [cbn; auto | discriminate | vm_compute; discriminate].
Defined.

(** With three channels no cell is owned twice: of the masked grids of two
    different channels, one at least is zero at any given cell. *)
Theorem single_grid_three_channels_own_cells_once
  (sg masked_grids : channels) (p q : string) (gp gq : Grid) :
  NoDup (map fst sg) -> List.length sg = 3%nat ->
  _single_grid sg = Ok masked_grids ->
  In (p, gp) sg -> In (q, gq) sg -> p <> q ->
  exists mp mq,
    dict_get masked_grids p = Ok mp /\
    dict_get masked_grids q = Ok mq /\
    forall x, cells mp x == 0 \/ cells mq x == 0.
Proof.
  intros Hnd Hlen Hrun Hp Hq Hpq.
  destruct (single_grid_three_entry sg masked_grids p gp Hnd Hlen Hrun Hp)
    as [mp [Hmp Hcp]].
  destruct (single_grid_three_entry sg masked_grids q gq Hnd Hlen Hrun Hq)
    as [mq [Hmq Hcq]].
  exists mp, mq. split; [exact Hmp|]. split; [exact Hmq|].
  intros x. destruct (Qlt_le_dec (cells gq x) (cells gp x)) as [Hlt|Hle].
  - right. apply (proj2 (Hcq x) p gp Hp Hpq).
    apply Qle_not_lt. apply Qlt_le_weak. exact Hlt.
  - left. apply (proj2 (Hcp x) q gq Hq (fun e => Hpq (eq_sym e))).
    apply Qle_not_lt. exact Hle.
Qed.

Lemma single_grid_three_channels_own_cells_once_witness :
  exists masked_grids mp mq,
    _single_grid Inputs.three_channels = Ok masked_grids /\
    dict_get masked_grids "apolar" = Ok mp /\
    dict_get masked_grids "donor" = Ok mq /\
    (forall x, cells mp x == 0 \/ cells mq x == 0) /\
    cells mp (0, 0, 0)%Z == 3 /\
    cells mq (1, 0, 0)%Z == 3.
Proof.
  eexists.
  assert (Hrun : _single_grid Inputs.three_channels = Ok _) by reflexivity.
  destruct (single_grid_three_channels_own_cells_once Inputs.three_channels
              _ "apolar" "donor" (Inputs.row2 3 1) (Inputs.row2 1 3)
              three_channels_distinct eq_refl Hrun)
    as [mp [mq (Hp & Hq & Hone)]].
  - cbn. auto.
  - cbn. auto.
  - discriminate.
  - exists mp, mq.
    split; [exact Hrun|]. split; [exact Hp|]. split; [exact Hq|].
    split; [exact Hone|].
    cbn in Hp, Hq. injection Hp as <-. injection Hq as <-.
    split; vm_compute; reflexivity.
Defined.

(** ** Dictionaries keyed by a float, and [sorted] *)

Lemma Qeq_bool_eq (a b : Q) : Qeq_bool a b = true <-> a == b.
Proof. apply Qeq_bool_iff. Qed.

Lemma qdict_set_in {V} (d : list (Q * V)) (k k' : Q) (v v' : V) :
  In (k', v') (qdict_set d k v) -> (k' == k /\ v' = v) \/ In (k', v') d.
Proof.
  induction d as [|[k0 v0] d IH]; cbn.
  - intros [H|[]]. injection H as <- <-. left. split; reflexivity.
  - destruct (Qeq_bool k0 k) eqn:E; cbn; intros [H|H].
    + injection H as <- <-. left. split; [apply Qeq_bool_eq; exact E|].
      reflexivity.
    + auto.
    + auto.
    + destruct (IH H); auto.
Qed.

Lemma qdict_set_keeps_keys {V} (d : list (Q * V)) (k x : Q) (v : V) :
  In x (map fst d) -> In x (map fst (qdict_set d k v)).
Proof.
  induction d as [|[k0 v0] d IH]; cbn; [intros []|].
  destruct (Qeq_bool k0 k); cbn; intros [H|H]; auto.
Qed.

Lemma qdict_set_has_key {V} (d : list (Q * V)) (k : Q) (v : V) :
  exists k0, In k0 (map fst (qdict_set d k v)) /\ k0 == k.
Proof.
  induction d as [|[k0 v0] d IH]; cbn.
  - exists k. split; [auto | reflexivity].
  - destruct (Qeq_bool k0 k) eqn:E; cbn.
    + exists k0. split; [auto | apply Qeq_bool_eq; exact E].
    + destruct IH as [k1 [H1 H2]]. exists k1. auto.
Qed.

Lemma qdict_get_in {V} (d : list (Q * V)) (k : Q) (v : V) :
  qdict_get d k = Some v -> exists k0, In (k0, v) d /\ k0 == k.
Proof.
  induction d as [|[k0 v0] d IH]; cbn; [discriminate|].
  destruct (Qeq_bool k0 k) eqn:E.
  - intros H. injection H as <-. exists k0.
    split; [auto | apply Qeq_bool_eq; exact E].
  - intros H. destruct (IH H) as [k1 [H1 H2]]. exists k1. auto.
Qed.

Lemma qdict_get_some {V} (d : list (Q * V)) (k : Q) :
  In k (map fst d) -> exists v, qdict_get d k = Some v.
Proof.
  induction d as [|[k0 v0] d IH]; cbn; [intros []|].
  destruct (Qeq_bool k0 k) eqn:E; [eauto|].
  intros [H|H]; [|auto].
  subst k0. rewrite (proj2 (Qeq_bool_eq k k) (Qeq_refl k)) in E.
  discriminate.
Qed.

Lemma insert_desc_in (y x : Q) (l : list Q) :
  In x (insert_desc y l) <-> x = y \/ In x l.
Proof.
  induction l as [|t r IH]; cbn.
  - intuition.
  - destruct (Qle_bool t y); cbn; [intuition|].
    rewrite IH. intuition.
Qed.

Lemma sorted_desc_in (x : Q) (l : list Q) :
  In x (sorted_desc l) <-> In x l.
Proof.
  induction l as [|a l IH]; cbn; [reflexivity|].
  rewrite insert_desc_in, IH. intuition.
Qed.

(** The first element of the sorted list is the largest. *)
Lemma sorted_desc_head (l : list Q) :
  match sorted_desc l with
  | [] => l = []
  | top :: _ => In top l /\ forall x, In x l -> x <= top
  end.
Proof.
  induction l as [|a l IH]; cbn [sorted_desc fold_right]; [reflexivity|].
  fold (sorted_desc l).
  assert (Hin : forall x, In x (insert_desc a (sorted_desc l))
                          <-> x = a \/ In x l).
  { intros x. rewrite insert_desc_in, sorted_desc_in. reflexivity. }
  destruct (sorted_desc l) as [|t r] eqn:Hs.
  - subst l. cbn. split; [auto|]. intros x [<-|[]]. apply Qle_refl.
  - destruct IH as [Ht Hmax]. cbn [insert_desc] in *.
    destruct (Qle_bool t a) eqn:E.
    + apply Qle_bool_iff in E. split; [left; reflexivity|].
      intros x [<-|Hx]; [apply Qle_refl|].
      eapply Qle_trans; [apply Hmax; exact Hx | exact E].
    + assert (Hat : a <= t).
      { apply Qlt_le_weak. apply Qnot_le_lt. intros H.
        apply Qle_bool_iff in H. congruence. }
      split; [right; exact Ht|].
      intros x [<-|Hx]; [exact Hat | apply Hmax; exact Hx].
Qed.

(** ** [HotspotResults._island_by_volume] *)

Lemma island_totals_inv (score_cutoff : Q) (islands : list Grid) :
  forall (acc : list (Q * Grid)) (seen : list Grid),
  (forall k v, In (k, v) acc ->
               In v seen /\ k == Qsum (island_points v score_cutoff)) ->
  (forall h, In h seen ->
             exists k, In k (map fst acc) /\
                       k == Qsum (island_points h score_cutoff)) ->
  let d := fold_left
             (fun d g => qdict_set d (Qsum (island_points g score_cutoff)) g)
             islands acc in
  (forall k v, In (k, v) d ->
               In v (seen ++ islands) /\
               k == Qsum (island_points v score_cutoff)) /\
  (forall h, In h (seen ++ islands) ->
             exists k, In k (map fst d) /\
                       k == Qsum (island_points h score_cutoff)).
Proof.
  induction islands as [|g islands IH]; intros acc seen Hv Hk; cbn.
  - rewrite app_nil_r. auto.
  - replace (seen ++ g :: islands) with ((seen ++ [g]) ++ islands)
      by (rewrite <- app_assoc; reflexivity).
    apply IH.
    + intros k v Hin. apply qdict_set_in in Hin.
      destruct Hin as [[Hkq ->]|Hin].
      * split; [apply in_or_app; right; left; reflexivity | exact Hkq].
      * destruct (Hv k v Hin). split; [apply in_or_app|]; auto.
    + intros h Hh. apply in_app_or in Hh. destruct Hh as [Hh|[<-|[]]].
      * destruct (Hk h Hh) as [k [H1 H2]]. exists k.
        split; [apply qdict_set_keeps_keys; exact H1 | exact H2].
      * apply qdict_set_has_key.
Qed.

(** [_island_by_volume] answers [None] exactly when there is no island at
    the cutoff; otherwise it answers one of the islands, and no island has a
    larger total of values at or above the cutoff. *)
Theorem island_by_volume_picks_largest_total
  (islands : Grid -> Q -> list Grid) (sg : Grid) (score_cutoff : Q) :
  match _island_by_volume islands sg score_cutoff with
  | None => islands sg score_cutoff = []
  | Some g =>
      In g (islands sg score_cutoff) /\
      forall h, In h (islands sg score_cutoff) ->
                Qsum (island_points h score_cutoff)
                <= Qsum (island_points g score_cutoff)
  end.
Proof.
  unfold _island_by_volume.
  set (found := islands sg score_cutoff).
  destruct (island_totals_inv score_cutoff found [] [])
    as [Hv Hk]; [intros k v [] | intros h [] |].
  cbn [app] in Hv, Hk.
  set (d := fold_left _ found []) in *.
  pose proof (sorted_desc_head (map fst d)) as Hhead.
  destruct (sorted_desc (map fst d)) as [|top rest].
  - destruct found as [|h found']; [reflexivity|].
    destruct (Hk h (or_introl eq_refl)) as [k [Hin _]].
    rewrite Hhead in Hin. contradiction.
  - destruct Hhead as [Htop Hmax].
    destruct (qdict_get_some d top Htop) as [g Hg]. rewrite Hg.
    apply qdict_get_in in Hg. destruct Hg as [k0 [Hin0 Hk0]].
    destruct (Hv k0 g Hin0) as [Hgin Hgk].
    split; [exact Hgin|].
    intros h Hh. destruct (Hk h Hh) as [k [Hkin Hkq]].
    rewrite <- Hkq, <- Hgk, Hk0. apply Hmax. exact Hkin.
Qed.

(** ** [HotspotResults._get_near_score] *)

Import Scoring.

Lemma range2_in (a b d : Z) : In d (range2 a b) <-> (a <= d < b)%Z.
Proof.
  unfold range2. rewrite in_map_iff. split.
  - intros [n [<- Hn]]. apply in_seq in Hn. lia.
  - intros H. exists (Z.to_nat (d - a)). split; [lia|].
    apply in_seq. lia.
Qed.

Lemma nearby_in (i j k x y z tolerance : Z) :
  In (x, y, z) (nearby (i, j, k) tolerance) <->
  (i - tolerance <= x <= i + tolerance /\
   j - tolerance <= y <= j + tolerance /\
   k - tolerance <= z <= k + tolerance)%Z.
Proof.
  unfold nearby. rewrite in_flat_map. split.
  - intros [di [Hdi H]]. apply in_flat_map in H. destruct H as [dj [Hdj H]].
    apply in_map_iff in H. destruct H as [dk [H Hdk]].
    injection H as <- <- <-. apply range2_in in Hdi, Hdj, Hdk. lia.
  - intros (Hx & Hy & Hz). exists (x - i)%Z. split; [apply range2_in; lia|].
    apply in_flat_map. exists (y - j)%Z. split; [apply range2_in; lia|].
    apply in_map_iff. exists (z - k)%Z. split; [|apply range2_in; lia].
    f_equal; [f_equal|]; lia.
Qed.

(** The dictionary of [_get_near_score]: every entry holds an index that was
    run through, under the value of the grid there, and every value that was
    looked up is a key. *)
Lemma near_scores_inv (g : Grid) (window : list idx) :
  forall (acc d : list (Q * idx)) (seen : list idx),
  for_each (fun d c => let '(ci, cj, ck) := c in
                       v <- value g ci cj ck ;; Ok (qdict_set d v c))
    window acc = Ok d ->
  (forall k c, In (k, c) acc -> In c seen /\ k == cells g c) ->
  (forall c, In c seen -> exists k, In k (map fst acc) /\ k == cells g c) ->
  (forall k c, In (k, c) d -> In c (seen ++ window) /\ k == cells g c) /\
  (forall c, In c (seen ++ window) ->
             exists k, In k (map fst d) /\ k == cells g c).
Proof.
  induction window as [|[[ci cj] ck] window IH]; intros acc d seen Hrun Hv Hk.
  - cbn in Hrun. injection Hrun as <-. rewrite app_nil_r. auto.
  - cbn [for_each] in Hrun. unfold value in Hrun at 1.
    destruct (in_bounds g (ci, cj, ck)); [|discriminate].
    cbn [bind] in Hrun.
    enough (Hgoal :
        (forall k c, In (k, c) d ->
           In c ((seen ++ [(ci, cj, ck)]) ++ window) /\ k == cells g c) /\
        (forall c, In c ((seen ++ [(ci, cj, ck)]) ++ window) ->
           exists k, In k (map fst d) /\ k == cells g c)).
    { destruct Hgoal as [A B]. split.
      - intros q c Hc. destruct (A q c Hc) as [Hc1 Hc2].
        split; [|exact Hc2]. rewrite <- app_assoc in Hc1. exact Hc1.
      - intros c Hc. apply B. rewrite <- app_assoc. exact Hc. }
    apply (IH _ _ _ Hrun).
    + intros k c Hin. apply qdict_set_in in Hin.
      destruct Hin as [[Hkq ->]|Hin].
      * split; [apply in_or_app; right; left; reflexivity | exact Hkq].
      * destruct (Hv k c Hin). split; [apply in_or_app|]; auto.
    + intros c Hc. apply in_app_or in Hc. destruct Hc as [Hc|[<-|[]]].
      * destruct (Hk c Hc) as [k [H1 H2]]. exists k.
        split; [apply qdict_set_keeps_keys; exact H1 | exact H2].
      * apply qdict_set_has_key.
Qed.

(** Past the two tests of [_get_near_score], the whole window lies in the
    grid. *)
Lemma nearby_in_bounds (g : Grid) (i j k nx ny nz tolerance : Z) :
  nsteps g = (nx, ny, nz) ->
  (nx - i <? tolerance + 1)%Z || (ny - j <? tolerance + 1)%Z
  || (nz - k <? tolerance + 1)%Z = false ->
  (i <? tolerance)%Z || (j <? tolerance)%Z || (k <? tolerance)%Z = false ->
  forall c, In c (nearby (i, j, k) tolerance) -> in_bounds g c = true.
Proof.
  intros Hn Hhi Hlo [[x y] z] Hc. apply nearby_in in Hc.
  repeat (apply orb_false_elim in Hhi; destruct Hhi as [Hhi ?]).
  repeat (apply orb_false_elim in Hlo; destruct Hlo as [Hlo ?]).
  repeat match goal with
         | H : (_ <? _)%Z = false |- _ => apply Z.ltb_ge in H
         end.
  unfold in_bounds. rewrite Hn.
  repeat (apply andb_true_intro; split);
    try (apply Z.leb_le; lia); apply Z.ltb_lt; lia.
Qed.

Lemma near_score_returns
  (super_grids : channels) (coordinates : point) (atom_type : string)
  (tolerance : Z) (g : Grid) :
  dict_get super_grids atom_type = Ok g ->
  (0 <= tolerance)%Z ->
  exists found,
    _get_near_score super_grids coordinates atom_type tolerance = Ok found.
Proof.
  intros Hg Htol. unfold _get_near_score. rewrite Hg. cbn [bind].
  destruct (_point_to_indices coordinates g) as [[i j] k].
  destruct (nsteps g) as [[nx ny] nz] eqn:Hn.
  destruct ((nx - i <? tolerance + 1)%Z || (ny - j <? tolerance + 1)%Z
            || (nz - k <? tolerance + 1)%Z) eqn:Hhi; [eauto|].
  destruct ((i <? tolerance)%Z || (j <? tolerance)%Z || (k <? tolerance)%Z)
    eqn:Hlo; [eauto|].
  pose proof (nearby_in_bounds g i j k nx ny nz tolerance Hn Hhi Hlo) as Hb.
  match goal with
  | |- context [for_each ?b ?w ?a] =>
      destruct (for_each b w a) as [d|e] eqn:Hd;
      [|destruct (for_each_ok b w) with (st := a) as [d' Hd'];
        [|rewrite Hd' in Hd; discriminate]]
  end.
  2:{ intros st [[x y] z] Hc. cbn beta iota.
      unfold value. rewrite (Hb _ Hc). cbn. eauto. }
  cbn [bind].
  destruct (near_scores_inv g (nearby (i, j, k) tolerance) [] d [] Hd)
    as [_ Hk]; [intros q c [] | intros c [] |].
  cbn [app] in Hk. unfold idx in *.
  destruct (Hk (i, j, k)) as [k0 [Hk0 _]]; [apply nearby_in; lia|].
  pose proof (sorted_desc_head (map fst d)) as Hhead.
  destruct (sorted_desc (map fst d)) as [|top rest].
  - rewrite Hhead in Hk0. contradiction.
  - cbn [getitem nth_error bind]. destruct Hhead as [Htop _].
    destruct (Qltb top (1 # 100)); [eauto|].
    destruct (qdict_get_some d top Htop) as [[[ci cj] ck] Hc].
    rewrite Hc. eauto.
Qed.

(** For a channel of the result and a tolerance that is not negative,
    [_get_near_score] always returns: the two tests at its head keep every
    lookup of the window inside the grid. *)
Theorem get_near_score_never_leaves_the_grid
  (super_grids : channels) (coordinates : point) (atom_type : string)
  (tolerance : Z) (g : Grid) :
  dict_get super_grids atom_type = Ok g ->
  (0 <= tolerance)%Z ->
  exists found,
    _get_near_score super_grids coordinates atom_type tolerance = Ok found.
Proof.
  exact (near_score_returns super_grids coordinates atom_type tolerance g).
Qed.

Lemma get_near_score_never_leaves_the_grid_witness :
  exists found,
    _get_near_score Inputs.five_channels (0, 0, 0) "positive" 0 = Ok found.
Proof.
  apply (get_near_score_never_leaves_the_grid Inputs.five_channels (0, 0, 0)
           "positive" 0 (Inputs.cell1 5)).
  - reflexivity.
  - lia.
Defined.

(** A score that [_get_near_score] returns with a point is the largest value
    of the grid over the window of indices around the index that
    [_point_to_indices] computes for the coordinates: it is the value of the
    grid at the returned point, which is the point of an index of the
    window, no index of the window holds a larger value, and it is not below
    0.01. *)
Theorem get_near_score_finds_the_maximum
  (super_grids : channels) (coordinates : point) (atom_type : string)
  (tolerance : Z) (g : Grid) (score : Q) (at_point : point) :
  dict_get super_grids atom_type = Ok g ->
  _get_near_score super_grids coordinates atom_type tolerance
  = Ok (Found score at_point) ->
  let window := nearby (_point_to_indices coordinates g) tolerance in
  (exists ci cj ck,
      In (ci, cj, ck) window /\
      at_point = _indices_to_point ci cj ck g /\
      cells g (ci, cj, ck) == score) /\
  (forall c, In c window -> cells g c <= score) /\
  ~ score < 1 # 100.
Proof.
  intros Hg. unfold _get_near_score. rewrite Hg. cbn [bind]. cbv zeta.
  destruct (_point_to_indices coordinates g) as [[i j] k].
  destruct (nsteps g) as [[nx ny] nz] eqn:Hn.
  destruct ((nx - i <? tolerance + 1)%Z || (ny - j <? tolerance + 1)%Z
            || (nz - k <? tolerance + 1)%Z); [discriminate|].
  destruct ((i <? tolerance)%Z || (j <? tolerance)%Z || (k <? tolerance)%Z);
    [discriminate|].
  match goal with
  | |- context [for_each ?b ?w ?a] =>
      destruct (for_each b w a) as [d|e] eqn:Hd; [|discriminate]
  end.
  cbn [bind].
  destruct (near_scores_inv g (nearby (i, j, k) tolerance) [] d [] Hd)
    as [Hv Hk]; [intros q c [] | intros c [] |].
  cbn [app] in Hv, Hk. unfold idx in *.
  pose proof (sorted_desc_head (map fst d)) as Hhead.
  destruct (sorted_desc (map fst d)) as [|top rest]; [discriminate|].
  cbn [getitem nth_error bind]. destruct Hhead as [Htop Hmax].
  destruct (Qltb top (1 # 100)) eqn:Hlow; [discriminate|].
  destruct (qdict_get d top) as [[[ci cj] ck]|] eqn:Hget; [|discriminate].
  intros H. injection H as <- <-.
  apply qdict_get_in in Hget. destruct Hget as [k0 [Hin0 Hk0]].
  destruct (Hv k0 (ci, cj, ck) Hin0) as [Hcin Hck].
  split; [|split].
  - exists ci, cj, ck. split; [exact Hcin|]. split; [reflexivity|].
    rewrite <- Hck. exact Hk0.
  - intros c Hc. destruct (Hk c Hc) as [kc [Hkin Hkq]].
    rewrite <- Hkq. apply Hmax. exact Hkin.
  - intros Hlt. apply Qltb_lt in Hlt. congruence.
Qed.

Lemma get_near_score_finds_the_maximum_witness :
  (exists ci cj ck,
      In (ci, cj, ck)
        (nearby (_point_to_indices (1, 1, 1) Inputs.ramp5) 1) /\
      _indices_to_point 3 3 3 Inputs.ramp5
      = _indices_to_point ci cj ck Inputs.ramp5 /\
      cells Inputs.ramp5 (ci, cj, ck) == 94) /\
  (forall c, In c (nearby (_point_to_indices (1, 1, 1) Inputs.ramp5) 1) ->
             cells Inputs.ramp5 c <= 94) /\
  ~ 94 < 1 # 100.
Proof.
  apply (get_near_score_finds_the_maximum Inputs.ramp_channels (1, 1, 1)
           "apolar" 1 Inputs.ramp5 94
           (_indices_to_point 3 3 3 Inputs.ramp5)).
  - reflexivity.
  - vm_compute. reflexivity.
Defined.

(** ** [HotspotResults._get_percentage_rank] *)

Lemma filter_length_bound {A} (f : A -> bool) (l : list A) :
  (List.length (filter f l) <= List.length l)%nat.
Proof.
  induction l as [|a l IH]; cbn; [lia|]. destruct (f a); cbn; lia.
Qed.

(** For a channel of the result, [_get_percentage_rank] answers a number
    between 0 and 100 as soon as the grid of the channel has a positive
    value; when it has none, the division by the number of positive values
    raises [ZeroDivisionError]. *)
Theorem percentage_rank_is_a_percentage
  (super_grids : channels) (coordinates : point) (atom_type : string)
  (g : Grid) :
  dict_get super_grids atom_type = Ok g ->
  ((exists c, In c (all_cells g) /\ 0 < cells g c) ->
   exists r,
     _get_percentage_rank super_grids coordinates atom_type = Ok r /\
     0 <= r /\ r <= 100) /\
  ((forall c, In c (all_cells g) -> ~ 0 < cells g c) ->
   _get_percentage_rank super_grids coordinates atom_type
   = Raise ZeroDivisionError).
Proof.
  intros Hg. unfold _get_percentage_rank.
  destruct (near_score_returns super_grids coordinates atom_type 2 g Hg)
    as [found ->]; [lia|].
  cbn [bind]. rewrite Hg. cbn [bind].
  set (scores := filter (fun v => Qltb 0 v) (map (cells g) (all_cells g))).
  set (filtered := filter (fun x => Qltb x (near_score found)) scores).
  pose proof (filter_length_bound (fun x => Qltb x (near_score found)) scores)
    as Hle.
  fold filtered in Hle.
  assert (Hpos : forall c, In c (all_cells g) -> 0 < cells g c ->
                           In (cells g c) scores).
  { intros c Hc Hlt. apply filter_In. split; [apply in_map; exact Hc|].
    apply Qltb_lt. exact Hlt. }
  assert (Hscores : forall v, In v scores ->
                      exists c, In c (all_cells g) /\ 0 < cells g c).
  { intros v Hv. apply filter_In in Hv. destruct Hv as [Hv Hlt].
    apply in_map_iff in Hv. destruct Hv as [c [<- Hc]].
    exists c. split; [exact Hc|]. apply Qltb_lt. exact Hlt. }
  destruct scores as [|v scores'] eqn:Hs.
  - cbn [List.length]. split; [|reflexivity].
    intros [c [Hc Hlt]]. destruct (Hpos c Hc Hlt).
  - cbn [List.length] in *.
    set (n := S (List.length scores')) in *.
    assert (Hn : 0 < inject_Z (Z.of_nat n)).
    { change 0 with (inject_Z 0). rewrite <- Zlt_Qlt. lia. }
    split.
    + intros _. eexists. split; [reflexivity|]. split.
      * apply Qle_shift_div_l; [exact Hn|]. rewrite Qmult_0_l.
        apply Qmult_le_0_compat; [discriminate|].
        change 0 with (inject_Z 0). rewrite <- Zle_Qle. lia.
      * apply Qle_shift_div_r; [exact Hn|].
        apply Qmult_le_l; [reflexivity|].
        rewrite <- Zle_Qle. lia.
    + intros Hnone. exfalso.
      destruct (Hscores v (or_introl eq_refl)) as [c [Hc Hlt]].
      exact (Hnone c Hc Hlt).
Qed.

Lemma percentage_rank_is_a_percentage_witness :
  (exists r,
     _get_percentage_rank Inputs.ramp_channels (1, 1, 1) "apolar" = Ok r /\
     0 <= r /\ r <= 100 /\ r == 496 # 5) /\
  _get_percentage_rank Inputs.five_channels (0, 0, 0) "donor"
  = Raise ZeroDivisionError.
Proof.
  destruct (percentage_rank_is_a_percentage Inputs.ramp_channels (1, 1, 1)
              "apolar" Inputs.ramp5 eq_refl) as [Hsome _].
  destruct (percentage_rank_is_a_percentage Inputs.five_channels (0, 0, 0)
              "donor" (Inputs.cell1 0) eq_refl) as [_ Hnone].
  split.
  - destruct Hsome as [r (Hrun & Hlo & Hhi)].
    + exists (0, 0, 0)%Z. split; [vm_compute; left; reflexivity|].
      vm_compute. reflexivity.
    + exists r. split; [exact Hrun|]. split; [exact Hlo|].
      split; [exact Hhi|].
      vm_compute in Hrun. injection Hrun as <-. reflexivity.
  - apply Hnone. intros c Hc. cbn. discriminate.
Defined.

(** ** [HotspotResults._get_grid_percentiles] *)

Lemma range_in (n d : Z) : In d (range n) <-> (0 <= d < n)%Z.
Proof.
  unfold range. rewrite in_map_iff. split.
  - intros [m [<- Hm]]. apply in_seq in Hm. lia.
  - intros H. exists (Z.to_nat d). split; [lia|]. apply in_seq. lia.
Qed.

Lemma traverse_fails {A B} (f : A -> result B) (e : exn) (l : list A) :
  (forall x, In x l -> f x = Raise e \/ exists v, f x = Ok v) ->
  (exists x, In x l /\ f x = Raise e) ->
  Sampler.traverse f l = Raise e.
Proof.
  induction l as [|a l IH]; intros Hall [x [Hx Hfx]]; [contradiction|].
  cbn [Sampler.traverse].
  destruct (Hall a (or_introl eq_refl)) as [->|[v Hv]]; [reflexivity|].
  rewrite Hv. cbn [bind].
  rewrite IH; [reflexivity | |].
  - intros y Hy. apply Hall. right. exact Hy.
  - destruct Hx as [<-|Hx]; [congruence|]. eauto.
Qed.

(** The comprehension of [_get_grid_percentiles] runs the third index over
    the step count of the second axis.  On a grid with more steps along y
    than along z it therefore looks up a cell beyond the grid and the call
    raises [IndexError], whatever the percentiles asked for. *)
Theorem grid_percentiles_fail_when_y_exceeds_z
  (percentile : list Q -> Q -> Q) (g : Grid)
  (percentiles : list (string * Q)) (nx ny nz : Z) :
  nsteps g = (nx, ny, nz) ->
  (1 <= nx)%Z -> (0 <= nz < ny)%Z ->
  _get_grid_percentiles percentile g percentiles = Raise IndexError.
Proof.
  intros Hn Hx Hz. unfold _get_grid_percentiles.
  rewrite (traverse_fails _ IndexError); [reflexivity | |].
  - intros [[i j] k] _. unfold value.
    destruct (in_bounds g (i, j, k)); eauto.
  - exists (0, 0, nz)%Z. split.
    + unfold percentile_cells. rewrite Hn.
      apply in_flat_map. exists 0%Z. split; [apply range_in; lia|].
      apply in_flat_map. exists 0%Z. split; [apply range_in; lia|].
      apply in_map. apply range_in. lia.
    + unfold value, in_bounds. rewrite Hn.
      replace (nz <? nz)%Z with false by (symmetry; apply Z.ltb_irrefl).
      rewrite andb_false_r. reflexivity.
Qed.

Lemma grid_percentiles_fail_when_y_exceeds_z_witness :
  _get_grid_percentiles (fun _ _ => 0) (Inputs.blank (0, 0, 0) (1, 2, 1)%Z)
    [("high"%string, 90)]
  = Raise IndexError.
Proof.
  apply (grid_percentiles_fail_when_y_exceeds_z (fun _ _ => 0)
           (Inputs.blank (0, 0, 0) (1, 2, 1)%Z) [("high"%string, 90)] 1 2 1).
  - reflexivity.
  - lia.
  - lia.
Defined.

(** ** The atom predicates of the channels *)

Local Open Scope R_scope.

(** The predicates of the channels sort the atoms: an apolar atom is in no
    other channel, a charged atom is in the channel of its charge only, and
    every atom that is not the dummy atom [Xe] is in some channel.  Donor and
    acceptor are the only two channels that can share an atom. *)
Theorem channel_predicates_sort_atoms (a : Atom) :
  Channel.is_apolar a
  && (Channel.is_donor a || Channel.is_acceptor a
      || Channel.is_positive a || Channel.is_negative a) = false /\
  Channel.is_positive a
  && (Channel.is_donor a || Channel.is_acceptor a || Channel.is_negative a)
  = false /\
  Channel.is_negative a
  && (Channel.is_donor a || Channel.is_acceptor a) = false /\
  String.eqb (atomic_symbol a) "Xe"
  || (Channel.is_donor a || Channel.is_acceptor a || Channel.is_apolar a
      || Channel.is_positive a || Channel.is_negative a) = true.
Proof.
  unfold Channel.is_apolar, Channel.is_donor, Channel.is_acceptor,
    Channel.is_positive, Channel.is_negative.
  destruct (Sampler.is_donor a), (Sampler.is_acceptor a),
    (formal_charge a) as [|c|c], (String.eqb (atomic_symbol a) "Xe");
    repeat split; reflexivity.
Qed.

(** The type that [get_priority_atom] gives to the atom it returns names a
    channel whose predicate accepts the atom; the one exception is the dummy
    atom [Xe], which is typed apolar although the apolar predicate refuses
    it. *)
Theorem priority_atom_type_names_its_channel (molecule : Molecule)
  (a : Atom) (t : string) :
  get_priority_atom molecule = Ok (a, t) ->
  exists predicate,
    Channel.predicate_of t = Some predicate /\
    (predicate a = true \/
     (t = "apolar"%string /\ String.eqb (atomic_symbol a) "Xe" = true)).
Proof.
  unfold get_priority_atom. cbv zeta.
  destruct (sorted_first _) as [d|e]; [|discriminate]. cbn [bind].
  destruct (rdict_get _ d) as [pa|e]; [|discriminate]. cbn [bind].
  intros H. injection H as <- <-.
  unfold Channel.is_apolar, Channel.is_donor, Channel.is_acceptor,
    Channel.is_positive, Channel.is_negative.
  destruct (formal_charge pa) as [|c|c] eqn:Hc; cbn [Z.eqb negb Z.ltb Z.compare].
  - destruct (Sampler.is_acceptor pa) eqn:Ha.
    + exists Channel.is_acceptor. split; [reflexivity|]. left.
      unfold Channel.is_acceptor. rewrite Ha, Hc. reflexivity.
    + destruct (Sampler.is_donor pa) eqn:Hd.
      * exists Channel.is_donor. split; [reflexivity|]. left.
        unfold Channel.is_donor. rewrite Hd, Hc. reflexivity.
      * exists Channel.is_apolar. split; [reflexivity|].
        unfold Channel.is_apolar. rewrite Hd, Ha, Hc. cbn.
        destruct (String.eqb (atomic_symbol pa) "Xe"); auto.
  - exists Channel.is_positive. split; [reflexivity|]. left.
    unfold Channel.is_positive. rewrite Hc. reflexivity.
  - exists Channel.is_negative. split; [reflexivity|]. left.
    unfold Channel.is_negative. rewrite Hc. reflexivity.
Qed.

Lemma probe_priority_atom :
  get_priority_atom Inputs.probe
  = Ok (Inputs.near_acceptor, "acceptor"%string).
Proof.
  unfold get_priority_atom. rewrite probe_centre.
  change (filter is_polar Inputs.probe)
    with [Inputs.far_donor; Inputs.near_acceptor].
  cbn [List.length Nat.ltb Nat.leb by_distance fold_left rdict_set].
  rewrite distance_far_donor, distance_near_acceptor.
  destruct (Req_dec_T 3 1) as [H|_]; [exfalso; lra|].
  cbn [map fst sorted_first fold_left bind].
  unfold Rmin. destruct (Rle_dec 3 1) as [H|_]; [exfalso; lra|].
  cbn [rdict_get].
  destruct (Req_dec_T 3 1) as [H|_]; [exfalso; lra|].
  destruct (Req_dec_T 1 1) as [_|H]; [|exfalso; lra].
  reflexivity.
Defined.

Lemma priority_atom_type_names_its_channel_witness :
  exists predicate,
    Channel.predicate_of "acceptor" = Some predicate /\
    (predicate Inputs.near_acceptor = true \/
     ("acceptor"%string = "apolar"%string /\
      String.eqb (atomic_symbol Inputs.near_acceptor) "Xe" = true)).
Proof.
  exact (priority_atom_type_names_its_channel Inputs.probe
           Inputs.near_acceptor "acceptor" probe_priority_atom).
Defined.

(** ** [get_priority_atom]: which atom, and when *)

Lemma priority_atom_is_nearest_witness :
  let c := centre_of_geometry Inputs.probe in
  let candidates :=
    if (0 <? List.length (filter is_polar Inputs.probe))%nat
    then filter is_polar Inputs.probe else Inputs.probe in
  In Inputs.near_acceptor candidates /\
  forall b, In b candidates ->
            _get_distance c (coordinates Inputs.near_acceptor)
            <= _get_distance c (coordinates b).
Proof.
  exact (priority_atom_is_nearest Inputs.probe Inputs.near_acceptor
           "acceptor" probe_priority_atom).
Defined.

Lemma fold_Rmin_in (t : list R) :
  forall k, In (fold_left Rmin t k) (k :: t).
Proof.
  induction t as [|a t IH]; intros k; cbn [fold_left].
  - left. reflexivity.
  - destruct (IH (Rmin k a)) as [H|H].
    + rewrite <- H. unfold Rmin. destruct (Rle_dec k a); cbn; auto.
    + right. right. exact H.
Qed.

Lemma rdict_get_some {V} (d : list (R * V)) (k : R) :
  In k (map fst d) -> exists v, rdict_get d k = Ok v.
Proof.
  induction d as [|[k0 v0] d IH]; cbn; [intros []|].
  destruct (Req_dec_T k0 k) as [_|Hne]; [eauto|].
  intros [H|H]; [contradiction | auto].
Qed.

(** [get_priority_atom] raises [IndexError] on a molecule without atoms and
    returns one of the atoms of the molecule on every other molecule. *)
Theorem priority_atom_exists_unless_empty (molecule : Molecule) :
  match molecule with
  | [] => get_priority_atom molecule = Raise IndexError
  | _ :: _ =>
      exists a t, get_priority_atom molecule = Ok (a, t) /\ In a molecule
  end.
Proof.
  destruct molecule as [|a0 rest] eqn:Hm; [reflexivity|]. rewrite <- Hm.
  assert (Hne : molecule <> []) by (rewrite Hm; discriminate).
  clear Hm a0 rest.
  unfold get_priority_atom. cbv zeta.
  set (c := centre_of_geometry molecule).
  set (candidates := if (0 <? List.length (filter is_polar molecule))%nat
                     then filter is_polar molecule else molecule).
  assert (Hd : (if (0 <? List.length (filter is_polar molecule))%nat
                then by_distance c (filter is_polar molecule)
                else by_distance c molecule) = by_distance c candidates)
    by (subst candidates; destruct (0 <? _)%nat; reflexivity).
  rewrite Hd. clear Hd.
  assert (Hsub : forall b, In b candidates -> In b molecule).
  { subst candidates. intros b.
    destruct (0 <? List.length (filter is_polar molecule))%nat; [|auto].
    intros Hb. apply filter_In in Hb. apply Hb. }
  assert (Hcand : exists b, In b candidates).
  { subst candidates.
    destruct (filter is_polar molecule) as [|b l]; cbn.
    - destruct molecule as [|b l]; [contradiction | exists b; cbn; auto].
    - exists b. cbn. auto. }
  destruct (by_distance_inv c candidates [] [])
    as [Hv Hk]; [intros k v [] | intros b [] |].
  cbn [app] in Hv, Hk. fold (by_distance c candidates) in Hv, Hk.
  destruct Hcand as [b Hb]. pose proof (Hk b Hb) as Hkey.
  destruct (map fst (by_distance c candidates)) as [|k0 keys] eqn:Hkeys;
    [contradiction|].
  cbn [sorted_first bind].
  destruct (rdict_get_some (by_distance c candidates) (fold_left Rmin keys k0))
    as [pa Hpa].
  { rewrite Hkeys. apply fold_Rmin_in. }
  rewrite Hpa. cbn [bind]. eexists. eexists. split; [reflexivity|].
  apply Hsub. apply rdict_get_in in Hpa. apply (Hv _ _ Hpa).
Qed.

(** ** [generate_rand_quaternions]: how many *)

Lemma generated_length_witness :
  Z.of_nat (List.length [make_quaternion 0 0 (1 / 2) (1 / 2);
                         make_quaternion 0 0 (1 / 2) (1 / 2)])
  = nrotations Inputs.two_rotations.
Proof.
  apply (generated_length Inputs.two_rotations Inputs.draws).
  - cbn. lia.
  - exact two_rotations_run.
Defined.





(** ** [score]: the geometric mean *)

Lemma product_from (l : list R) (a : R) :
  fold_left Rmult l a = a * fold_left Rmult l 1.
Proof.
  revert a. induction l as [|v l IH]; intros a; cbn [fold_left].
  - ring.
  - rewrite (IH (a * v)), (IH (1 * v)). ring.
Qed.

Lemma product_cons (v : R) (l : list R) :
  fold_left Rmult (v :: l) 1 = v * fold_left Rmult l 1.
Proof. cbn [fold_left]. rewrite product_from. ring. Qed.

Lemma inverse_of_one : 1 / INR 1 = 1.
Proof. cbn. field. Qed.

(** The score of a single value is that value, whatever its sign. *)
Theorem score_of_one_value (v : R) : score [v] = Ok v.
Proof.
  unfold score. rewrite product_cons. cbn [fold_left List.length float_div bind].
  rewrite inverse_of_one, Rmult_1_r. unfold float_pow.
  destruct (Rlt_dec 0 v) as [Hpos|Hnpos].
  - rewrite Rpower_1 by exact Hpos. reflexivity.
  - destruct (Req_dec_T v 0) as [->|Hnz]; [reflexivity|].
    destruct (Req_dec_T 1 1) as [_|H]; [reflexivity | contradiction].
Qed.

(** ** [_SampleGrid.sample] *)

Lemma traverse_length {A B} (f : A -> result B) (l : list A) (l' : list B) :
  traverse f l = Ok l' -> List.length l' = List.length l.
Proof.
  revert l'. induction l as [|a l IH]; intros l'; cbn [traverse].
  - intros H. injection H as <-. reflexivity.
  - destruct (f a) as [b|e]; [|discriminate]. cbn [bind].
    destruct (traverse f l) as [bs|e]; [|discriminate]. cbn [bind].
    intros H. injection H as <-. cbn. rewrite (IH bs eq_refl). reflexivity.
Qed.

(** [sample] answers one value per coordinate, or the single value 0 when a
    lookup left the grid with a [RuntimeError]; that error never comes out
    of it. *)
Theorem sample_absorbs_runtime_errors
  (g : SampleGrid) (coordinate_list : list coords) (trans : coords) :
  match sample g coordinate_list trans with
  | Ok values =>
      List.length values = List.length coordinate_list \/ values = [0]
  | Raise e => e <> RuntimeError
  end.
Proof.
  unfold sample.
  destruct (traverse _ coordinate_list) as [values|e] eqn:Ht.
  - left. exact (traverse_length _ _ _ Ht).
  - destruct e; try discriminate. right. reflexivity.
Qed.

(** ** [update_out_grids]: the running maximum *)

Import OutGrids.

Local Open Scope Q_scope.

Lemma idx_eqb_eq (a b : idx) : idx_eqb a b = true <-> a = b.
Proof.
  destruct a as [[i j] k], b as [[i' j'] k']. unfold idx_eqb.
  rewrite !andb_true_iff, !Z.eqb_eq. split.
  - intros [[-> ->] ->]. reflexivity.
  - intros H. injection H as -> -> ->. auto.
Qed.

Lemma py_max_idempotent (s v : Q) : py_max s (py_max s v) = py_max s v.
Proof.
  unfold py_max. destruct (Qltb s v) eqn:E.
  - rewrite E. reflexivity.
  - destruct (Qltb s s) eqn:E'; [|reflexivity].
    apply Qltb_lt in E'. exfalso. exact (Qlt_irrefl _ E').
Qed.

Lemma py_max_is_Qmax (a b : Q) : py_max a b == Qmax a b.
Proof.
  unfold py_max. destruct (Qltb a b) eqn:E.
  - apply Qltb_lt in E. rewrite Q.max_r; [reflexivity|].
    apply Qlt_le_weak. exact E.
  - rewrite Q.max_l; [reflexivity|].
    apply Qnot_lt_le. intros H. apply Qltb_lt in H. congruence.
Qed.


Lemma py_max_swap (s1 s2 v : Q) :
  py_max s2 (py_max s1 v) == py_max s1 (py_max s2 v).
Proof.
  rewrite (py_max_is_Qmax s2), (py_max_is_Qmax s1 (py_max s2 v)).
  rewrite (py_max_is_Qmax s1 v), (py_max_is_Qmax s2 v).
  rewrite !Q.max_assoc, (Q.max_comm s2 s1). reflexivity.
Qed.

Lemma point_to_indices_by_origin (p : point) (g g' : Grid) :
  origin g' = origin g -> _point_to_indices p g' = _point_to_indices p g.
Proof. intros H. unfold _point_to_indices. rewrite H. reflexivity. Qed.

Lemma in_bounds_by_steps (g g' : Grid) (c : idx) :
  nsteps g' = nsteps g -> in_bounds g' c = in_bounds g c.
Proof. intros H. unfold in_bounds. rewrite H. reflexivity. Qed.

Lemma touched_by_origin (trans : point) (g g' : Grid)
  (actives : list point) :
  origin g' = origin g -> touched trans g' actives = touched trans g actives.
Proof.
  intros H. unfold touched. apply map_ext. intros a.
  apply point_to_indices_by_origin. exact H.
Qed.

(** The inner loop, in closed form: it fails exactly when
    [_point_to_indices] gives for an active atom an index outside the grid,
    the error is then [IndexError]; otherwise the frame is kept and every cell that was
    written to holds the larger of the score and its former value. *)
Lemma update_actives_result (score : Q) (trans : point)
  (actives : list point) :
  forall grid,
  match update_actives score trans grid actives with
  | Ok g' =>
      (forall c, In c (touched trans grid actives) ->
                 in_bounds grid c = true) /\
      origin g' = origin grid /\ nsteps g' = nsteps grid /\
      forall c, cells g' c =
                if existsb (idx_eqb c) (touched trans grid actives)
                then py_max score (cells grid c) else cells grid c
  | Raise e =>
      e = IndexError /\
      exists c, In c (touched trans grid actives) /\
                in_bounds grid c = false
  end.
Proof.
  unfold update_actives.
  induction actives as [|a actives IH]; intros grid; cbn [for_each].
  - cbn. split; [intros c []|]. auto.
  - cbn [touched map].
    fold (touched trans grid actives).
    destruct (_point_to_indices (add_coordinates a trans) grid)
      as [[i j] k] eqn:Hidx.
    unfold value at 1.
    destruct (in_bounds grid (i, j, k)) eqn:Hb; cbn [bind].
    + unfold set_value. rewrite Hb. cbn [bind].
      set (g1 := mkGrid (origin grid) (nsteps grid)
                   (fun c => if idx_eqb c (i, j, k)
                             then py_max score (cells grid (i, j, k))
                             else cells grid c)).
      specialize (IH g1).
      rewrite (touched_by_origin trans grid g1 actives eq_refl) in IH.
      destruct (for_each _ actives g1) as [g'|e].
      * destruct IH as (Hin & Ho & Hn & Hc).
        split; [|split; [exact Ho | split; [exact Hn|]]].
        -- intros c [<-|Hc']; [exact Hb|].
           rewrite <- (in_bounds_by_steps grid g1 c eq_refl). apply Hin.
           exact Hc'.
        -- intros c. rewrite Hc. cbn [existsb cells g1].
           destruct (idx_eqb c (i, j, k)) eqn:He; cbn [orb].
           ++ apply idx_eqb_eq in He. subst c.
              destruct (existsb _ _); [apply py_max_idempotent | reflexivity].
           ++ reflexivity.
      * destruct IH as [-> [c [Hc Hcb]]]. split; [reflexivity|].
        exists c. split; [right; exact Hc|].
        rewrite <- (in_bounds_by_steps grid g1 c eq_refl). exact Hcb.
    + split; [reflexivity|]. exists (i, j, k). split; [left; reflexivity|].
      exact Hb.
Qed.


(** What an update does to one probe grid. *)
Lemma update_probe_grid (score : Q) (dic : string -> list point)
  (trans : point) (pg pg' : ProbeGrid) :
  update_probe score dic trans pg = Ok pg' ->
  pg_name pg' = pg_name pg /\
  origin (pg_grid pg') = origin (pg_grid pg) /\
  nsteps (pg_grid pg') = nsteps (pg_grid pg) /\
  forall c, cells (pg_grid pg') c =
            if existsb (idx_eqb c)
                 (touched trans (pg_grid pg) (dic (pg_name pg)))
            then py_max score (cells (pg_grid pg) c)
            else cells (pg_grid pg) c.
Proof.
  unfold update_probe. cbv zeta.
  destruct (dic (pg_name pg)) as [|a actives] eqn:Hd.
  - cbn. intros H. injection H as <-. auto.
  - cbn [List.length Nat.eqb].
    pose proof (update_actives_result score trans (a :: actives) (pg_grid pg))
      as Hr.
    destruct (update_actives score trans (pg_grid pg) (a :: actives))
      as [g|e]; [|discriminate].
    cbn [bind]. intros H. injection H as <-. cbn [pg_name pg_grid].
    destruct Hr as (_ & Ho & Hn & Hc). auto.
Qed.





(** ** [update_out_grids]: the order of the poses *)

Lemma update_probe_returns (score : Q) (dic : string -> list point)
  (trans : point) (pg : ProbeGrid) :
  (forall c, In c (touched trans (pg_grid pg) (dic (pg_name pg))) ->
             in_bounds (pg_grid pg) c = true) ->
  exists pg', update_probe score dic trans pg = Ok pg'.
Proof.
  intros Hin. unfold update_probe. cbv zeta.
  destruct (List.length (dic (pg_name pg)) =? 0)%nat; [eauto|].
  pose proof (update_actives_result score trans (dic (pg_name pg))
                (pg_grid pg)) as Hr.
  destruct (update_actives score trans (pg_grid pg) (dic (pg_name pg)))
    as [g|e]; cbn [bind]; [eauto|].
  destruct Hr as [_ [c [Hc Hb]]]. rewrite (Hin c Hc) in Hb. discriminate.
Qed.

Lemma update_probe_in_bounds (score : Q) (dic : string -> list point)
  (trans : point) (pg pg' : ProbeGrid) :
  update_probe score dic trans pg = Ok pg' ->
  forall c, In c (touched trans (pg_grid pg) (dic (pg_name pg))) ->
            in_bounds (pg_grid pg) c = true.
Proof.
  unfold update_probe. cbv zeta.
  destruct (dic (pg_name pg)) as [|a actives] eqn:Hd.
  - intros _ c [].
  - cbn [List.length Nat.eqb].
    pose proof (update_actives_result score trans (a :: actives) (pg_grid pg))
      as Hr.
    destruct (update_actives score trans (pg_grid pg) (a :: actives))
      as [g|e]; [|discriminate].
    intros _. apply Hr.
Qed.

(** Two poses on one probe grid, in either order. *)
Lemma update_probe_commutes (s1 s2 : Q) (dic1 dic2 : string -> list point)
  (t1 t2 : point) (pg a ab : ProbeGrid) :
  update_probe s1 dic1 t1 pg = Ok a ->
  update_probe s2 dic2 t2 a = Ok ab ->
  exists b ba,
    update_probe s2 dic2 t2 pg = Ok b /\
    update_probe s1 dic1 t1 b = Ok ba /\
    pg_name ab = pg_name ba /\
    origin (pg_grid ab) = origin (pg_grid ba) /\
    nsteps (pg_grid ab) = nsteps (pg_grid ba) /\
    forall c, cells (pg_grid ab) c == cells (pg_grid ba) c.
Proof.
  intros H1 H2.
  pose proof (update_probe_in_bounds _ _ _ _ _ H1) as B1.
  pose proof (update_probe_in_bounds _ _ _ _ _ H2) as B2.
  apply update_probe_grid in H1, H2.
  destruct H1 as (N1 & O1 & S1 & C1), H2 as (N2 & O2 & S2 & C2).
  rewrite N1 in *. rewrite (touched_by_origin t2 _ _ _ O1) in *.
  destruct (update_probe_returns s2 dic2 t2 pg) as [b Hb].
  { intros c Hc. rewrite <- (in_bounds_by_steps _ _ c S1). apply B2.
    exact Hc. }
  pose proof Hb as Hb'. apply update_probe_grid in Hb'.
  destruct Hb' as (N3 & O3 & S3 & C3).
  destruct (update_probe_returns s1 dic1 t1 b) as [ba Hba].
  { intros c Hc. rewrite N3, (touched_by_origin t1 _ _ _ O3) in Hc.
    rewrite (in_bounds_by_steps _ _ c S3). apply B1. exact Hc. }
  pose proof Hba as Hba'. apply update_probe_grid in Hba'.
  destruct Hba' as (N4 & O4 & S4 & C4).
  rewrite N3 in *. rewrite (touched_by_origin t1 _ _ _ O3) in *.
  exists b, ba. split; [exact Hb|]. split; [exact Hba|].
  split; [congruence|]. split; [congruence|]. split; [congruence|].
  intros c. rewrite C2, C4, C1, C3.
  destruct (existsb (idx_eqb c) (touched t2 (pg_grid pg) (dic2 (pg_name pg))));
    destruct (existsb (idx_eqb c)
                (touched t1 (pg_grid pg) (dic1 (pg_name pg))));
    try reflexivity.
  apply py_max_swap.
Qed.

(** The output grids do not depend on the order in which two poses are
    processed: if the updates for one pose and then another return, so do
    the updates in the other order, and the probe grids that come out have
    the same names, the same frames and the same value at every cell. *)
Theorem update_out_grids_in_either_order
  (s1 s2 : Q) (dic1 dic2 : string -> list point) (t1 t2 : point)
  (probe_grids : list ProbeGrid) :
  forall first both : list ProbeGrid,
  update_out_grids probe_grids s1 dic1 t1 = Ok first ->
  update_out_grids first s2 dic2 t2 = Ok both ->
  exists second both',
    update_out_grids probe_grids s2 dic2 t2 = Ok second /\
    update_out_grids second s1 dic1 t1 = Ok both' /\
    Forall2
      (fun x y =>
         pg_name x = pg_name y /\
         origin (pg_grid x) = origin (pg_grid y) /\
         nsteps (pg_grid x) = nsteps (pg_grid y) /\
         forall c, cells (pg_grid x) c == cells (pg_grid y) c)
      both both'.
Proof.
  unfold update_out_grids.
  induction probe_grids as [|pg l IH]; intros first both H1 H2.
  - cbn in H1. injection H1 as <-. cbn in H2. injection H2 as <-.
    exists [], []. repeat split; constructor.
  - cbn [Sampler.traverse] in H1.
    destruct (update_probe s1 dic1 t1 pg) as [a|e] eqn:Ha; [|discriminate].
    cbn [bind] in H1.
    destruct (Sampler.traverse (update_probe s1 dic1 t1) l) as [l1|e] eqn:Hl1;
      [|discriminate].
    cbn [bind] in H1. injection H1 as <-.
    cbn [Sampler.traverse] in H2.
    destruct (update_probe s2 dic2 t2 a) as [ab|e] eqn:Hab; [|discriminate].
    cbn [bind] in H2.
    destruct (Sampler.traverse (update_probe s2 dic2 t2) l1) as [l12|e]
      eqn:Hl12; [|discriminate].
    cbn [bind] in H2. injection H2 as <-.
    destruct (update_probe_commutes s1 s2 dic1 dic2 t1 t2 pg a ab Ha Hab)
      as [b [ba [Hb [Hba Hsame]]]].
    destruct (IH l1 l12 eq_refl Hl12) as [l2 [l21 [Hl2 [Hl21 Hall]]]].
    exists (b :: l2), (ba :: l21).
    cbn [Sampler.traverse]. rewrite Hb, Hl2. cbn [bind].
    rewrite Hba, Hl21. cbn [bind].
    split; [reflexivity|]. split; [reflexivity|].
    constructor; [exact Hsame | exact Hall].
Qed.

Lemma update_out_grids_in_either_order_witness :
  exists first both second both',
    update_out_grids [Inputs.donor_probe_grid] 17 Inputs.inner_atom (0, 0, 0)
    = Ok first /\
    update_out_grids first 12 Inputs.inner_atom (0, 0, 0) = Ok both /\
    update_out_grids [Inputs.donor_probe_grid] 12 Inputs.inner_atom (0, 0, 0)
    = Ok second /\
    update_out_grids second 17 Inputs.inner_atom (0, 0, 0) = Ok both' /\
    Forall2
      (fun x y =>
         pg_name x = pg_name y /\
         origin (pg_grid x) = origin (pg_grid y) /\
         nsteps (pg_grid x) = nsteps (pg_grid y) /\
         forall c, cells (pg_grid x) c == cells (pg_grid y) c)
      both both'.
Proof.
  eexists. eexists.
  assert (H1 : update_out_grids [Inputs.donor_probe_grid] 17
                 Inputs.inner_atom (0, 0, 0) = Ok _)
    by (vm_compute; reflexivity).
  match type of H1 with
  | _ = Ok ?f =>
      assert (H2 : update_out_grids f 12 Inputs.inner_atom (0, 0, 0) = Ok _)
        by (vm_compute; reflexivity)
  end.
  destruct (update_out_grids_in_either_order 17 12 Inputs.inner_atom
              Inputs.inner_atom (0, 0, 0) (0, 0, 0)
              [Inputs.donor_probe_grid] _ _ H1 H2)
    as [second [both' [H3 [H4 H5]]]].
  exists second, both'.
  split; [exact H1|]. split; [exact H2|]. split; [exact H3|].
  split; [exact H4 | exact H5].
Defined.

(** ** [Hotspots._get_weighted_maps] *)

Import Weighting.

(** When the propensity grid of a job and the burial grid share a frame, the
    weighted grid of the job is laid on that frame with a border of two
    cells: it holds the product of propensity and burial on the cells of the
    original frame and zero on the border. *)
Theorem weighted_maps_multiply_on_the_shared_frame
  (ghecom : option Grid) (superstar_grids : list SuperstarResult)
  (s : SuperstarResult) :
  let buriedness := match ghecom with
                    | Some g => g
                    | None => ligsite s
                    end in
  In s superstar_grids ->
  same_frame (grid s) buriedness ->
  exists w,
    In (identifier s, w) (_get_weighted_maps ghecom superstar_grids) /\
    point_eq (origin w)
      (map3 (fun x => x - inject_Z 2 * gs) (origin (grid s))) /\
    nsteps w = map3 (fun n => (n + 2 * 2)%Z) (nsteps (grid s)) /\
    forall c,
      cells w c ==
      if in_bounds (grid s) (shift3 c 2)
      then cells (grid s) (shift3 c 2) * cells buriedness (shift3 c 2)
      else 0.
Proof.
  intros buriedness Hin Hf.
  exists (snd (weighted_map ghecom s)).
  assert (Hw : weighted_map ghecom s
               = (identifier s,
                  gmul (fst (_common_grid (grid s) buriedness 1))
                       (snd (_common_grid (grid s) buriedness 1)))).
  { unfold weighted_map. fold buriedness.
    destruct (_common_grid (grid s) buriedness 1). reflexivity. }
  split.
  { unfold _get_weighted_maps. apply in_map_iff. exists s.
    split; [|exact Hin]. rewrite Hw. reflexivity. }
  rewrite Hw. cbn [snd].
  destruct (common_grid_fst (grid s) buriedness 1) as (Ho & Hn & Hc);
    [lia | exact Hf |].
  destruct (common_grid_snd (grid s) buriedness 1) as (_ & _ & Hc');
    [lia | exact Hf |].
  cbn [gmul pointwise origin nsteps cells].
  split; [exact Ho|]. split; [exact Hn|].
  intros c. change (1 + 1)%Z with 2%Z in Hc, Hc'.
  rewrite (Hc c), (Hc' c).
  rewrite (in_bounds_by_steps (grid s) buriedness (shift3 c 2)
             (eq_sym (proj2 Hf))).
  destruct (in_bounds (grid s) (shift3 c 2)); ring.
Qed.

Lemma weighted_maps_multiply_on_the_shared_frame_witness :
  exists w,
    In (identifier Inputs.superstar_row, w)
       (_get_weighted_maps None [Inputs.superstar_row]) /\
    point_eq (origin w)
      (map3 (fun x => x - inject_Z 2 * gs)
         (origin (grid Inputs.superstar_row))) /\
    nsteps w = map3 (fun n => (n + 2 * 2)%Z)
                 (nsteps (grid Inputs.superstar_row)) /\
    forall c,
      cells w c ==
      if in_bounds (grid Inputs.superstar_row) (shift3 c 2)
      then cells (grid Inputs.superstar_row) (shift3 c 2)
           * cells (ligsite Inputs.superstar_row) (shift3 c 2)
      else 0.
Proof.
  apply (weighted_maps_multiply_on_the_shared_frame None
           [Inputs.superstar_row] Inputs.superstar_row).
  - cbn. auto.
  - split; [cbn; repeat split; reflexivity | reflexivity].
Defined.

(** ** [HotspotResults.get_selectivity_map] *)

Import Selectivity.

Lemma dict_get_key (sg : channels) (p : string) :
  In p (map fst sg) -> exists g, dict_get sg p = Ok g.
Proof.
  induction sg as [|[k h] sg IH]; intros Hin; [contradiction|].
  cbn [dict_get]. destruct (String.eqb_spec k p) as [->|Hne]; [eauto|].
  destruct Hin as [Hin|Hin]; [contradiction | auto].
Qed.

Lemma dict_get_missing (sg : channels) (p : string) (e : exn) :
  dict_get sg p = Raise e -> e = KeyError.
Proof.
  induction sg as [|[k h] sg IH]; cbn [dict_get].
  - intros H. injection H as <-. reflexivity.
  - destruct (String.eqb k p); [discriminate | exact IH].
Qed.

(** The loop of [get_selectivity_map] runs through when the other result
    has every channel asked for, and stops with [KeyError] at the first
    channel that it lacks. *)
Lemma selectivity_loop (super_grids other : channels) (keys : list string) :
  (forall p, In p keys -> In p (map fst super_grids)) ->
  forall acc,
  match for_each (fun selectivity_grids probe =>
                    g1 <- dict_get super_grids probe ;;
                    g2 <- dict_get other probe ;;
                    let '(og1, og2) := _common_grid g1 g2 default_padding in
                    let sele := gsub og1 og2 in
                    Ok (dict_set selectivity_grids probe sele))
          keys acc with
  | Ok _ => forall p, In p keys -> exists g2, dict_get other p = Ok g2
  | Raise e =>
      e = KeyError /\
      exists p, In p keys /\ forall g2, dict_get other p <> Ok g2
  end.
Proof.
  induction keys as [|k keys IH]; intros Hsub acc; cbn [for_each].
  - intros p [].
  - destruct (dict_get_key super_grids k) as [g1 Hg1];
      [apply Hsub; left; reflexivity|].
    rewrite Hg1. cbn [bind].
    destruct (dict_get other k) as [g2|e] eqn:Hg2; cbn [bind].
    + destruct (_common_grid g1 g2 default_padding) as [og1 og2].
      cbv zeta. cbn [bind].
      specialize (IH (fun p Hp => Hsub p (or_intror Hp))
                    (dict_set acc k (gsub og1 og2))).
      destruct (for_each _ keys (dict_set acc k (gsub og1 og2))) as [d|e].
      * intros p [<-|Hp]; [eauto | auto].
      * destruct IH as [-> [p [Hp Hmiss]]]. split; [reflexivity|].
        exists p. split; [right; exact Hp | exact Hmiss].
    + split; [exact (dict_get_missing other k e Hg2)|].
      exists k. split; [left; reflexivity|].
      intros g2 H. rewrite H in Hg2. discriminate.
Qed.

(** [get_selectivity_map] never returns a result.  The object it is to
    return is built through [Hotspots.HotspotResults], and the class
    [Hotspots] has no attribute of that name: when the other result has
    every channel of this one, the differences are computed and the call
    ends in [AttributeError]; when it lacks one, the call ends in [KeyError]
    before that. *)
Theorem selectivity_map_is_never_returned (super_grids other : channels) :
  (forall hr, get_selectivity_map super_grids other <> Ok hr) /\
  ((forall p, In p (map fst super_grids) ->
              exists g2, dict_get other p = Ok g2) ->
   get_selectivity_map super_grids other
   = Raise (AttributeError
              "type object 'Hotspots' has no attribute 'HotspotResults'")) /\
  ((exists p, In p (map fst super_grids) /\
              forall g2, dict_get other p <> Ok g2) ->
   get_selectivity_map super_grids other = Raise KeyError).
Proof.
  unfold get_selectivity_map.
  pose proof (selectivity_loop super_grids other (map fst super_grids)
                (fun p Hp => Hp) []) as Hloop.
  destruct (for_each _ (map fst super_grids) []) as [d|e]; cbn [bind].
  - split; [discriminate|]. split; [reflexivity|].
    intros [p [Hp Hmiss]]. destruct (Hloop p Hp) as [g2 Hg2].
    exfalso. exact (Hmiss g2 Hg2).
  - destruct Hloop as [-> [p [Hp Hmiss]]].
    split; [discriminate|]. split; [|reflexivity].
    intros Hall. destruct (Hall p Hp) as [g2 Hg2].
    exfalso. exact (Hmiss g2 Hg2).
Qed.

Lemma selectivity_map_is_never_returned_witness :
  get_selectivity_map Inputs.five_channels Inputs.five_channels
  = Raise (AttributeError
             "type object 'Hotspots' has no attribute 'HotspotResults'") /\
  get_selectivity_map Inputs.five_channels Inputs.three_channels
  = Raise KeyError.
Proof.
  destruct (selectivity_map_is_never_returned Inputs.five_channels
              Inputs.five_channels) as [_ [Hall _]].
  destruct (selectivity_map_is_never_returned Inputs.five_channels
              Inputs.three_channels) as [_ [_ Hmiss]].
  split.
  - apply Hall. intros p Hp.
    exact (dict_get_key Inputs.five_channels p Hp).
  - apply Hmiss. exists "positive"%string. split; [cbn; auto|].
    intros g2. discriminate.
Defined.
